(** * Fintech ETL: the transformation and aggregation engine

    A shallow embedding of [dags/modules/transform2.py] (the normalizer,
    [transform_data]) and [dags/modules/aggregated2.py] (the aggregator,
    [aggregate_data]).

    A pandas DataFrame is a list of rows in frame order.  A float64 column
    entry is a [cell]: [None] is pandas' null (NaN), [Some x] a binary64
    value; arithmetic is IEEE-754 binary64 (Rocq's primitive floats), and a
    NaN result is the null again.  An int64 column entry is a [Z], with the
    wrap-around written out where the code adds.  A date is a calendar day
    (the [Date] column as [pd.to_datetime] parses it).

    The library calls are read as pandas 2.x documents them: [fillna] with
    [inplace=True] on a column takes effect on the frame; [groupby] drops
    the rows whose key is null and lists its keys in ascending order;
    [mean], [std] and [last] skip nulls; [std] is the sample standard
    deviation; [rolling(n)] needs [n] observations; [pct_change] fills
    forward inside the group.  Sums of floats are taken from left to right;
    no property below depends on the order of summation. *)

From Stdlib Require Import ZArith Floats.
From stdpp Require Import gmap strings list sorting.

Local Open Scope Z_scope.

(** ** Float cells *)

Definition cell : Type := option float.

Definition norm (x : float) : cell :=
  if PrimFloat.is_nan x then None else Some x.

Definition lift2 (op : float → float → float) (a b : cell) : cell :=
  match a, b with
  | Some x, Some y => norm (op x y)
  | _, _ => None
  end.

Definition fadd : cell → cell → cell := lift2 PrimFloat.add.
Definition fsub : cell → cell → cell := lift2 PrimFloat.sub.
Definition fmul : cell → cell → cell := lift2 PrimFloat.mul.
Definition fdiv : cell → cell → cell := lift2 PrimFloat.div.

(** [Series.isna] and [Series.fillna(d)] on one entry. *)
Definition isna (c : cell) : bool :=
  match c with Some x => PrimFloat.is_nan x | None => true end.

Definition fillna (d : float) (c : cell) : float :=
  match c with
  | Some x => if PrimFloat.is_nan x then d else x
  | None => d
  end.

(** The non-null entries of a column, in order ([skipna]). *)
Definition nonnull (l : list cell) : list float :=
  omap (λ c, if isna c then None else c) l.

Definition float_of_nat (n : nat) : float :=
  PrimFloat.of_uint63 (Uint63.of_Z (Z.of_nat n)).

(** An int64 as a float64. *)
Definition float_of_int64 (z : Z) : float :=
  if z <? 0
  then (if z =? - 2 ^ 63 then (-0x1p63)%float
        else PrimFloat.opp (PrimFloat.of_uint63 (Uint63.of_Z (- z))))
  else PrimFloat.of_uint63 (Uint63.of_Z z).

(** Two's complement wrap-around of int64 arithmetic. *)
Definition wrap64 (z : Z) : Z := (z + 2 ^ 63) mod 2 ^ 64 - 2 ^ 63.

Definition fsum (l : list float) : float := foldl PrimFloat.add 0%float l.

(** Reductions of a group's column, as [groupby(...).agg] applies them: nulls
    are skipped; the mean of no value is null; [std] is the sample standard
    deviation ([ddof=1]), null when fewer than two values are present;
    [last] is the last non-null entry. *)
Definition agg_mean (l : list cell) : cell :=
  let v := nonnull l in
  match v with
  | [] => None
  | _ => norm (fsum v / float_of_nat (length v))%float
  end.

Definition agg_std (l : list cell) : cell :=
  let v := nonnull l in
  if bool_decide (length v ≤ 1)%nat then None
  else
    let m := (fsum v / float_of_nat (length v))%float in
    let ssd := fsum (map (λ x, (x - m) * (x - m))%float v) in
    norm (PrimFloat.sqrt (ssd / float_of_nat (length v - 1)))%float.

Definition agg_last (l : list cell) : cell := last (nonnull l).

Definition agg_sum_int (l : list Z) : Z := foldl (λ acc v, wrap64 (acc + v)) 0 l.

Definition agg_mean_int (l : list Z) : cell :=
  agg_mean ((λ v, Some (float_of_int64 v)) <$> l).

(** ** Calendar dates *)

Record date := mkDate { year : Z; month : Z; day : Z }.

#[global] Instance date_eq_dec : EqDecision date.
Proof. solve_decision. Defined.

(** [a < b] on timestamps. *)
Definition date_ltb (a b : date) : bool :=
  (year a <? year b)
  || ((year a =? year b)
      && ((month a <? month b)
          || ((month a =? month b) && (day a <? day b)))).

(** [strftime('%Y%m%d').astype(int)] *)
Definition date_id (d : date) : Z := year d * 10000 + month d * 100 + day d.

(** ** Grouped, row-aligned operations

    [groupby(key)[col].shift/transform/pct_change] return a column aligned
    with the frame: the entry of a row is computed from the rows of its own
    group that stand before it in frame order.  [with_history] pairs every
    row with those earlier rows, most recent first.  A row whose key is null
    belongs to no group and has no history. *)

Section History.
Context {A K : Type} `{EqDecision K} (key : A → option K).

Definition same_group (k : option K) (p : A) : Prop :=
  is_Some k ∧ key p = k.

#[global] Instance same_group_dec k p : Decision (same_group k p).
Proof. unfold same_group. apply _. Defined.

Fixpoint with_history (seen : list A) (df : list A) : list (A * list A) :=
  match df with
  | [] => []
  | r :: t => (r, filter (same_group (key r)) seen) :: with_history (r :: seen) t
  end.

(** The histories met when walking down one group [g] on its own, starting
    from the history [h]. *)
Fixpoint histories (h : list A) (g : list A) : list (A * list A) :=
  match g with
  | [] => []
  | r :: t => (r, h) :: histories (r :: h) t
  end.
End History.

(** [shift(1)]: the entry one row back in the group. *)
Definition shift1 {A} (col : A → cell) (hist : list A) : cell :=
  head hist ≫= col.

(** ** transform2.py *)

Definition COMPANY_ID_MAP : gmap string Z :=
  list_to_map
    [ ("Apple Inc.", 1); ("Microsoft Corp.", 2); ("Alphabet Inc.", 3);
      ("Amazon.com Inc.", 4); ("Netflix Inc.", 5) ]%string.

Definition map_company_id (company_name : string) : option Z :=
  COMPANY_ID_MAP !! company_name.

(** [uuid.uuid4()] draws from the operating system's randomness: the
    generator is the sequence of its successive results, and the state is
    the number of draws made so far. *)
Definition generate_record_id (uuid4 : nat → string) (n : nat) : string * nat :=
  (uuid4 n, S n).

(** A row of the extracted CSV. *)
Module Raw.
Record row := mk {
  Symbol : string;
  CompanyName : string;
  Date : date;
  OpenPrice : cell;
  High : cell;
  Low : cell;
  ClosePrice : cell;
  Volume : option Z
}.
End Raw.

(** A row of [df] after the fill, the identifiers and the type casts
    (transform2.py lines 95-120). *)
Module Staged.
Record row := mk {
  RecordID : string;
  CompanyID : option Z;
  Symbol : string;
  CompanyName : string;
  DateID : Z;
  Date : date;
  OpenPrice : float;
  High : float;
  Low : float;
  ClosePrice : float;
  Volume : Z
}.

Definition key (r : row) : string * date := (Symbol r, Date r).
End Staged.

(** A row of [df] once the daily return is computed (lines 134-136). *)
Module Frame.
Record row := mk {
  base : Staged.row;
  PreviousClosePrice : cell;
  DailyReturn : float
}.
End Frame.

(** A row of [transformed_df], the twelve columns written out. *)
Module Out.
Record row := mk {
  base : Staged.row;
  DailyReturn : float
}.
End Out.

(** Line 88: [df = df[df['Date'] > pd.to_datetime(last_processed_date)]],
    only when a last processed date is given. *)
Definition filter_watermark (last_processed_date : option date)
    (df : list Raw.row) : list Raw.row :=
  match last_processed_date with
  | Some w => filter (λ r, date_ltb w (Raw.Date r)) df
  | None => df
  end.

(** Lines 95-120 on the row at position [i] of the filtered frame: the
    defaults for missing numbers, the [i]-th identifier drawn, the company
    identifier and the date key. *)
Definition stage (uuid4 : nat → string) (i : nat) (r : Raw.row) : Staged.row :=
  {| Staged.RecordID := fst (generate_record_id uuid4 i);
     Staged.CompanyID := map_company_id (Raw.CompanyName r);
     Staged.Symbol := Raw.Symbol r;
     Staged.CompanyName := Raw.CompanyName r;
     Staged.DateID := date_id (Raw.Date r);
     Staged.Date := Raw.Date r;
     Staged.OpenPrice := fillna 0 (Raw.OpenPrice r);
     Staged.High := fillna 0 (Raw.High r);
     Staged.Low := fillna 0 (Raw.Low r);
     Staged.ClosePrice := fillna 0 (Raw.ClosePrice r);
     Staged.Volume := default 0 (Raw.Volume r) |}.

(** Line 125: [drop_duplicates(subset=..., keep='first')]; [seen] holds the
    keys of the rows already passed. *)
Fixpoint drop_duplicates_from {A K : Type} `{EqDecision K} (key : A → K)
    (seen : list K) (df : list A) : list A :=
  match df with
  | [] => []
  | r :: t =>
      if decide (key r ∈ seen) then drop_duplicates_from key seen t
      else r :: drop_duplicates_from key (key r :: seen) t
  end.

Definition drop_duplicates {A K : Type} `{EqDecision K} (key : A → K)
    (df : list A) : list A :=
  drop_duplicates_from key [] df.

(** Lines 134-136 on one row, given the earlier rows of its Symbol. *)
Definition daily_return (close : float) (previous : cell) : float :=
  fillna 0 (fdiv (fsub (Some close) previous) previous).

Definition add_daily_return (p : Staged.row * list Staged.row) : Frame.row :=
  let previous := shift1 (λ q, Some (Staged.ClosePrice q)) p.2 in
  {| Frame.base := p.1;
     Frame.PreviousClosePrice := previous;
     Frame.DailyReturn := daily_return (Staged.ClosePrice p.1) previous |}.

(** [df] at line 136. *)
Definition transform_frame (uuid4 : nat → string) (input : list Raw.row)
    (last_processed_date : option date) : list Frame.row :=
  let df := filter_watermark last_processed_date input in
  let df := imap (stage uuid4) df in
  let df := drop_duplicates Staged.key df in
  add_daily_return <$> with_history (λ r, Some (Staged.Symbol r)) [] df.

Definition select (r : Frame.row) : Out.row :=
  {| Out.base := Frame.base r; Out.DailyReturn := Frame.DailyReturn r |}.

(** [transformed_df], the frame written to the output file. *)
Definition transform_data (uuid4 : nat → string) (input : list Raw.row)
    (last_processed_date : option date) : list Out.row :=
  select <$> transform_frame uuid4 input last_processed_date.

(** ** aggregated2.py *)

(** A row of the transformed CSV as [pd.read_csv] loads it: an empty entry
    of a numeric column is null. *)
Module Agg.
Record row := mk {
  RecordID : string;
  CompanyID : option Z;
  Symbol : string;
  CompanyName : string;
  DateID : Z;
  Date : date;
  OpenPrice : cell;
  High : cell;
  Low : cell;
  ClosePrice : cell;
  Volume : Z;
  DailyReturn : cell
}.
End Agg.

(** [to_csv] followed by [read_csv] on one row of the normalized output. *)
Definition read_csv (r : Out.row) : Agg.row :=
  let b := Out.base r in
  {| Agg.RecordID := Staged.RecordID b;
     Agg.CompanyID := Staged.CompanyID b;
     Agg.Symbol := Staged.Symbol b;
     Agg.CompanyName := Staged.CompanyName b;
     Agg.DateID := Staged.DateID b;
     Agg.Date := Staged.Date b;
     Agg.OpenPrice := norm (Staged.OpenPrice b);
     Agg.High := norm (Staged.High b);
     Agg.Low := norm (Staged.Low b);
     Agg.ClosePrice := norm (Staged.ClosePrice b);
     Agg.Volume := Staged.Volume b;
     Agg.DailyReturn := norm (Out.DailyReturn r) |}.

(** [x.rolling(window).mean()] at one row of a group; [col] holds the
    group's entries up to and including that row, most recent first.  The
    default [min_periods] is the window size: the entry is null unless the
    window holds that many non-null observations. *)
Definition rolling_mean (window : nat) (col : list cell) : cell :=
  let obs := nonnull (take window col) in
  if decide (length obs = window)
  then norm (fsum (reverse obs) / float_of_nat window)%float
  else None.

(** [ffill] at one row of a group: the most recent non-null entry. *)
Definition ffill (col : list cell) : cell :=
  head (nonnull col).

(** [groupby(...).pct_change(periods)] at one row of a group (pandas 2.x:
    forward fill inside the group, then [filled / filled.shift(periods) - 1]). *)
Definition pct_change (periods : nat) (col : list cell) : cell :=
  fsub (fdiv (ffill col) (ffill (drop periods col))) (Some 1%float).

(** [transformed_data] with every column that [aggregate_data] adds to it.
    The column [DailyReturn] is written twice: [DailyReturn_input] is its
    state after line 68 (read by facet 1), [DailyReturn] its state after
    lines 92-96 (read by facets 3 and 4). *)
Module Enriched.
Record row := mk {
  base : Agg.row;
  DailyReturn_input : float;
  AverageDailyPrice : cell;
  PreviousClosePrice : cell;
  DailyReturn : float;
  MovingAvg5 : float;
  MovingAvg10 : float;
  Trend : float;
  HighLowRatio : float
}.

Definition CompanyID (r : row) : option Z := Agg.CompanyID (base r).
Definition Volume (r : row) : Z := Agg.Volume (base r).
End Enriched.

Definition enrich (p : Agg.row * list Agg.row) : Enriched.row :=
  let r := p.1 in
  let closes := Agg.ClosePrice r :: (Agg.ClosePrice <$> p.2) in
  let previous := shift1 Agg.ClosePrice p.2 in
  {| Enriched.base := r;
     Enriched.DailyReturn_input := fillna 0 (Agg.DailyReturn r);
     Enriched.AverageDailyPrice :=
       fdiv (fadd (Agg.OpenPrice r) (Agg.ClosePrice r)) (Some 2%float);
     Enriched.PreviousClosePrice := previous;
     Enriched.DailyReturn :=
       fillna 0 (fdiv (fsub (Agg.ClosePrice r) previous) previous);
     Enriched.MovingAvg5 := fillna 0 (rolling_mean 5 closes);
     Enriched.MovingAvg10 := fillna 0 (rolling_mean 10 closes);
     Enriched.Trend := fillna 0 (fmul (pct_change 5 closes) (Some 100%float));
     Enriched.HighLowRatio := fillna 0 (fdiv (Agg.High r) (Agg.Low r)) |}.

Definition enrich_frame (transformed_data : list Agg.row) : list Enriched.row :=
  enrich <$> with_history Agg.CompanyID [] transformed_data.

(** The group keys of [groupby('CompanyID')]: the distinct non-null values,
    in ascending order. *)
Fixpoint insert_key (k : Z) (l : list Z) : list Z :=
  match l with
  | [] => [k]
  | h :: t =>
      if k <? h then k :: l
      else if k =? h then l
      else h :: insert_key k t
  end.

Definition group_keys (ids : list (option Z)) : list Z :=
  foldr (λ id acc, from_option (λ k, insert_key k acc) acc id) [] ids.

Definition group (k : Z) (df : list Enriched.row) : list Enriched.row :=
  filter (λ r, Enriched.CompanyID r = Some k) df.

(** [df.groupby('CompanyID').agg(...).reset_index()] *)
Definition groupby_agg {T} (f : list Enriched.row → T)
    (df : list Enriched.row) : list (Z * T) :=
  (λ k, (k, f (group k df))) <$> group_keys (Enriched.CompanyID <$> df).

Definition column {T} (f : Enriched.row → T) (g : list Enriched.row) : list T :=
  f <$> g.

(** The reductions of the eight facets on one group. *)
Definition summary_agg (g : list Enriched.row) : cell * Z * cell :=
  (agg_mean (column Enriched.AverageDailyPrice g),
   agg_sum_int (column Enriched.Volume g),
   agg_mean (column (λ r, Some (Enriched.DailyReturn_input r)) g)).

Definition total_volume_agg (g : list Enriched.row) : Z :=
  agg_sum_int (column Enriched.Volume g).

Definition daily_return_agg (g : list Enriched.row) : cell :=
  agg_mean (column (λ r, Some (Enriched.DailyReturn r)) g).

Definition volatility_agg (g : list Enriched.row) : cell :=
  agg_std (column (λ r, Some (Enriched.DailyReturn r)) g).

Definition moving_average_agg (g : list Enriched.row) : cell * cell :=
  (agg_last (column (λ r, Some (Enriched.MovingAvg5 r)) g),
   agg_last (column (λ r, Some (Enriched.MovingAvg10 r)) g)).

Definition trend_agg (g : list Enriched.row) : cell :=
  agg_mean (column (λ r, Some (Enriched.Trend r)) g).

Definition high_low_agg (g : list Enriched.row) : cell :=
  agg_mean (column (λ r, Some (Enriched.HighLowRatio r)) g).

Definition average_volume_agg (g : list Enriched.row) : cell :=
  agg_mean_int (column Enriched.Volume g).

(** The eight facets. *)
Definition company_performance_summary := groupby_agg summary_agg.
Definition total_trading_volume := groupby_agg total_volume_agg.
Definition daily_returns := groupby_agg daily_return_agg.
Definition volatility_index := groupby_agg volatility_agg.
Definition moving_averages := groupby_agg moving_average_agg.
Definition trend_analysis := groupby_agg trend_agg.
Definition high_low_ratios := groupby_agg high_low_agg.
Definition volume_analysis := groupby_agg average_volume_agg.

(** [left.merge(right, on='CompanyID', how='left')]: every left row, in
    order, with each right row of the same key, or with nulls when the right
    table has none. *)
Definition merge {A B} (left : list (Z * A)) (right : list (Z * B))
    : list (Z * (A * option B)) :=
  left ≫= λ l,
    match filter (λ r, r.1 = l.1) right with
    | [] => [(l.1, (l.2, None))]
    | matches => (λ r, (l.1, (l.2, Some r.2))) <$> matches
    end.

(** A row of the merged aggregate.  The first and the third facet both
    bring a column named [DailyReturn]; the merge renames them with the
    suffixes [_x] and [_y]. *)
Record AggregateRecord := mkAggregate {
  CompanyID : Z;
  AverageDailyPrice : cell;
  TotalVolume : Z;
  DailyReturn_x : cell;
  TotalTradingVolume : option Z;
  DailyReturn_y : cell;
  VolatilityIndex : cell;
  MovingAvg5Day : cell;
  MovingAvg10Day : cell;
  TrendAnalysis : cell;
  HighLowRatio : cell;
  AverageVolume : cell
}.

Definition aggregate_data (transformed_data : list Agg.row) : list AggregateRecord :=
  let df := enrich_frame transformed_data in
  let aggregated_data := merge (company_performance_summary df) (total_trading_volume df) in
  let aggregated_data := merge aggregated_data (daily_returns df) in
  let aggregated_data := merge aggregated_data (volatility_index df) in
  let aggregated_data := merge aggregated_data (moving_averages df) in
  let aggregated_data := merge aggregated_data (trend_analysis df) in
  let aggregated_data := merge aggregated_data (high_low_ratios df) in
  let aggregated_data := merge aggregated_data (volume_analysis df) in
  (λ '(k, ((((((((adp, tv, dr), ttv), dr'), vol), ma), tr), hl), av)),
     {| CompanyID := k;
        AverageDailyPrice := adp;
        TotalVolume := tv;
        DailyReturn_x := dr;
        TotalTradingVolume := ttv;
        DailyReturn_y := mjoin dr';
        VolatilityIndex := mjoin vol;
        MovingAvg5Day := ma ≫= fst;
        MovingAvg10Day := ma ≫= snd;
        TrendAnalysis := mjoin tr;
        HighLowRatio := mjoin hl;
        AverageVolume := mjoin av |}) <$> aggregated_data.

(** * Notions used in the properties *)

(** The deduplication key of a raw row. *)
Definition raw_key (r : Raw.row) : string * date := (Raw.Symbol r, Raw.Date r).

(** [df] at line 120, before the duplicates are dropped. *)
Definition staged_frame (uuid4 : nat → string) (input : list Raw.row)
    (last_processed_date : option date) : list Staged.row :=
  imap (stage uuid4) (filter_watermark last_processed_date input).

(** The two columns the output is said to be ordered by. *)
Definition order_columns (r : Staged.row) : option Z * date :=
  (Staged.CompanyID r, Staged.Date r).

(** The same two columns, as the raw row determines them. *)
Definition raw_order_columns (r : Raw.row) : option Z * date :=
  (map_company_id (Raw.CompanyName r), Raw.Date r).

(** Ascending CompanyID, then ascending Date; a null CompanyID sorts last. *)
Definition company_date_le (a b : option Z * date) : Prop :=
  match a.1, b.1 with
  | Some x, Some y => x < y ∨ (x = y ∧ ¬ date_ltb b.2 a.2)
  | Some _, None => True
  | None, Some _ => False
  | None, None => ¬ date_ltb b.2 a.2
  end.

(** A column pair list in that order, every row against every later one. *)
Definition ordered_by_company_then_date (l : list (option Z * date)) : Prop :=
  StronglySorted company_date_le l.

(** The row with another RecordID. *)
Definition set_record_id (id : string) (r : Staged.row) : Staged.row :=
  {| Staged.RecordID := id;
     Staged.CompanyID := Staged.CompanyID r;
     Staged.Symbol := Staged.Symbol r;
     Staged.CompanyName := Staged.CompanyName r;
     Staged.DateID := Staged.DateID r;
     Staged.Date := Staged.Date r;
     Staged.OpenPrice := Staged.OpenPrice r;
     Staged.High := Staged.High r;
     Staged.Low := Staged.Low r;
     Staged.ClosePrice := Staged.ClosePrice r;
     Staged.Volume := Staged.Volume r |}.

(** The output row with its RecordID column blanked. *)
Definition blank_record_id (o : Out.row) : Out.row :=
  {| Out.base := set_record_id EmptyString (Out.base o);
     Out.DailyReturn := Out.DailyReturn o |}.

(** The rows of one Symbol, in frame order. *)
Definition symbol_partition (s : string) (df : list Frame.row) : list Frame.row :=
  filter (λ r, Staged.Symbol (Frame.base r) = s) df.

(** The ClosePrice column of the frame. *)
Definition close_of (r : Frame.row) : float := Staged.ClosePrice (Frame.base r).

(** A row is the first chronological row of its Symbol when no row of the
    same Symbol in the frame is dated before it. *)
Definition first_chronological (r : Frame.row) (df : list Frame.row) : Prop :=
  r ∈ df
  ∧ ∀ q, q ∈ df →
      Staged.Symbol (Frame.base q) = Staged.Symbol (Frame.base r) →
      ¬ date_ltb (Staged.Date (Frame.base q)) (Staged.Date (Frame.base r)).

(** The merged row of one company, assembled from the eight reductions of
    its group. *)
Definition aggregate_group (k : Z) (g : list Enriched.row) : AggregateRecord :=
  {| CompanyID := k;
     AverageDailyPrice := (summary_agg g).1.1;
     TotalVolume := (summary_agg g).1.2;
     DailyReturn_x := (summary_agg g).2;
     TotalTradingVolume := Some (total_volume_agg g);
     DailyReturn_y := daily_return_agg g;
     VolatilityIndex := volatility_agg g;
     MovingAvg5Day := (moving_average_agg g).1;
     MovingAvg10Day := (moving_average_agg g).2;
     TrendAnalysis := trend_agg g;
     HighLowRatio := high_low_agg g;
     AverageVolume := average_volume_agg g |}.

(** The rows of a Symbol, in the frame the aggregator enriches. *)
Definition rows_of_symbol (s : string) (df : list Enriched.row) : list Enriched.row :=
  filter (λ r, Agg.Symbol (Enriched.base r) = s) df.

(** * Sample batches *)

(** A raw row of November 2024 with all four prices at [close]. *)
Definition tick (symbol company_name : string) (d : Z) (close : float) : Raw.row :=
  {| Raw.Symbol := symbol; Raw.CompanyName := company_name;
     Raw.Date := mkDate 2024 11 d;
     Raw.OpenPrice := Some close; Raw.High := Some close;
     Raw.Low := Some close; Raw.ClosePrice := Some close;
     Raw.Volume := Some 1000 |}.

(** Two companies, two days each, oldest day first. *)
Definition two_days : list Raw.row :=
  [ tick "AAPL" "Apple Inc." 12 100; tick "AAPL" "Apple Inc." 13 110;
    tick "MSFT" "Microsoft Corp." 12 200; tick "MSFT" "Microsoft Corp." 13 220 ]%float.

(** The same batch, normalized and read back by the aggregator. *)
Definition two_days_frame : list Agg.row :=
  read_csv <$> transform_data (λ _, EmptyString) two_days None.

(** A batch that repeats the pair (AAPL, 12 November). *)
Definition with_repeats : list Raw.row :=
  [ tick "AAPL" "Apple Inc." 12 100; tick "AAPL" "Apple Inc." 13 110;
    tick "AAPL" "Apple Inc." 12 101; tick "MSFT" "Microsoft Corp." 12 200 ]%float.

(** A batch in no particular order. *)
Definition unsorted_batch : list Raw.row :=
  [ tick "MSFT" "Microsoft Corp." 13 200; tick "AAPL" "Apple Inc." 13 100;
    tick "AAPL" "Apple Inc." 12 110 ]%float.

(** One Symbol, latest day first, as the provider's feed lists it. *)
Definition descending_batch : list Raw.row :=
  [ tick "AAPL" "Apple Inc." 13 110; tick "AAPL" "Apple Inc." 12 100 ]%float.

(** A day without any number, followed by a regular day. *)
Definition missing_close_batch : list Raw.row :=
  [ {| Raw.Symbol := "AAPL"; Raw.CompanyName := "Apple Inc.";
       Raw.Date := mkDate 2024 11 12;
       Raw.OpenPrice := None; Raw.High := None; Raw.Low := None;
       Raw.ClosePrice := None; Raw.Volume := None |};
    tick "AAPL" "Apple Inc." 13 5%float ].

(** A batch with a company that [COMPANY_ID_MAP] does not hold. *)
Definition unknown_company_batch : list Raw.row :=
  [ tick "AAPL" "Apple Inc." 12 100; tick "XYZ" "Xylophone Inc." 12 50;
    tick "AAPL" "Apple Inc." 13 110 ]%float.

(** An incremental run: one new day for each of two companies. *)
Definition one_row_per_company : list Agg.row :=
  read_csv <$> transform_data (λ _, EmptyString)
    [ tick "AAPL" "Apple Inc." 13 110%float;
      tick "MSFT" "Microsoft Corp." 13 220%float ] None.

(** Two ticker symbols of one company: three rows each, one CompanyID. *)
Definition two_tickers : list Raw.row :=
  [ tick "GOOG" "Alphabet Inc." 11 100; tick "GOOG" "Alphabet Inc." 12 101;
    tick "GOOG" "Alphabet Inc." 13 102; tick "GOOGL" "Alphabet Inc." 11 103;
    tick "GOOGL" "Alphabet Inc." 12 104; tick "GOOGL" "Alphabet Inc." 13 105 ]%float.

(** The same batch, normalized and read back by the aggregator. *)
Definition two_tickers_frame : list Agg.row :=
  read_csv <$> transform_data (λ _, EmptyString) two_tickers None.

(** * More of the code *)

(** ** The counts that [transform_data] logs *)

(** Lines 87-89: [initial_count - len(df)], the rows that the watermark
    filtered out (logged only when a last processed date is given). *)
Definition filtered_count (input : list Raw.row)
    (last_processed_date : option date) : nat :=
  (length input - length (filter_watermark last_processed_date input))%nat.

(** Lines 124-127: [duplicates_removed = before_dedup - len(df)]. *)
Definition duplicates_removed (uuid4 : nat → string) (input : list Raw.row)
    (last_processed_date : option date) : nat :=
  let df := imap (stage uuid4) (filter_watermark last_processed_date input) in
  (length df - length (drop_duplicates Staged.key df))%nat.

(** ** Finding and naming the interchange files

    A directory is the list of its entries, in the order in which the
    operating system lists them; an entry has a name and the two times that
    [os.path.getctime] and [os.path.getmtime] read (only their order
    matters, so they are integers).  The file system maps the path of a
    directory to its entries. *)

Record file := mkFile { file_name : string; file_ctime : Z; file_mtime : Z }.

Inductive exception := FileNotFoundError | OSError | KeyError.

(** What a call does: it returns a value or it raises. *)
Inductive outcome (A : Type) :=
  | Returns (a : A)
  | Raises (e : exception).
Arguments Returns {A} a.
Arguments Raises {A} e.

(** [s.startswith(p)] and [s.endswith(suffix)] *)
Definition startswith (s p : string) : bool := String.prefix p s.

Definition endswith (s suffix : string) : bool :=
  (String.length suffix <=? String.length s)%nat
  && String.eqb
       (String.substring (String.length s - String.length suffix)
          (String.length suffix) s)
       suffix.

(** [os.path.join(a, b)] on POSIX. *)
Definition path_join (a b : string) : string :=
  if startswith b "/" then b
  else if String.eqb a "" || endswith a "/" then a +:+ b
  else a +:+ "/" +:+ b.

(** [max(files, key=...)]: the first of the entries with the greatest key. *)
Definition max_by {A} (key : A → Z) (l : list A) : option A :=
  match l with
  | [] => None
  | x :: t => Some (foldl (λ best y, if key best <? key y then y else best) x t)
  end.

(** The entries that [glob.glob(directory/prefix*.csv)] finds, for a
    directory path and a prefix without wildcard characters, a prefix
    without a slash and a directory path that is not empty and has no
    trailing slash (as at every call site): the name starts with the
    prefix, ends with [.csv] after it, and a name with a leading dot is
    found only by a prefix with one.  A directory that does not exist has
    no match. *)
Definition glob_match (prefix name : string) : bool :=
  startswith name prefix
  && endswith name ".csv"
  && (String.length prefix + 4 <=? String.length name)%nat
  && (startswith prefix "." || negb (startswith name ".")).

Definition glob_csv (fs : gmap string (list file)) (directory prefix : string)
    : list file :=
  filter (λ f, glob_match prefix (file_name f)) (default [] (fs !! directory)).

(** transform2.py, lines 61-70 *)
Module transform2.
Definition get_latest_file (fs : gmap string (list file))
    (directory prefix : string) : outcome string :=
  let files := glob_csv fs directory prefix in
  match max_by file_ctime files with
  | None => Raises FileNotFoundError
  | Some latest_file => Returns (path_join directory (file_name latest_file))
  end.

(** Lines 164-165: the file that the transformation writes. *)
Definition output_file (cleaned_data_dir timestamp : string) : string :=
  cleaned_data_dir +:+ "/transformed_data_" +:+ timestamp +:+ ".csv".
End transform2.

(** aggregated2.py, lines 11-31 and 34-53 *)
Module aggregated2.
Definition get_latest_file (fs : gmap string (list file))
    (directory prefix extension : string) : outcome string :=
  match fs !! directory with
  | None => Raises FileNotFoundError
  | Some entries =>
      let files :=
        filter (λ f, startswith (file_name f) prefix
                     && endswith (file_name f) extension) entries in
      match max_by file_mtime files with
      | None => Raises FileNotFoundError
      | Some latest_file => Returns (path_join directory (file_name latest_file))
      end
  end.


End aggregated2.

(** load.py, lines 130-151 *)
Module load.
Definition get_latest_file (fs : gmap string (list file))
    (directory prefix : string) : option string :=
  let files := glob_csv fs directory (prefix +:+ "_") in
  match max_by file_mtime files with
  | None => None
  | Some latest_file => Some (path_join directory (file_name latest_file))
  end.
End load.

(** ** extract2.py

    The provider's answer for a symbol is the time series as a list of
    items in the order of the JSON object, each a day with its metrics (the
    key of an item is the day it denotes, as [pd.to_datetime] reads it).
    Python's [float] and [int] on the text of a metric are parameters; they
    give [None] where Python raises [ValueError]. *)

Definition SYMBOLS : list (string * string) :=
  [ ("AAPL", "Apple Inc."); ("MSFT", "Microsoft Corp.");
    ("GOOG", "Alphabet Inc."); ("AMZN", "Amazon.com Inc.");
    ("NFLX", "Netflix Inc.") ]%string.

(** [SYMBOLS[symbol]]; [None] is [KeyError]. *)
Definition symbol_company (symbol : string) : option string :=
  (list_to_map SYMBOLS : gmap string string) !! symbol.

(** A row that the extraction writes. *)
Module Extracted.
Record row := mk {
  Symbol : string;
  CompanyName : string;
  Date : date;
  OpenPrice : float;
  High : float;
  Low : float;
  ClosePrice : float;
  Volume : Z
}.

Definition key (r : row) : string * date := (Symbol r, Date r).
End Extracted.

(** [float(metrics.get(k, 0))] and [int(metrics.get(k, 0))] *)
Definition get_float (py_float : string → option float)
    (metrics : gmap string string) (k : string) : option float :=
  match metrics !! k with
  | Some text => py_float text
  | None => Some 0%float
  end.

Definition get_int (py_int : string → option Z)
    (metrics : gmap string string) (k : string) : option Z :=
  match metrics !! k with
  | Some text => py_int text
  | None => Some 0
  end.

(** Lines 99-108: the record of one item. *)
Definition parse_item (py_float : string → option float)
    (py_int : string → option Z) (symbol company_name : string)
    (item : date * gmap string string) : option Extracted.row :=
  o ← get_float py_float item.2 "1. open";
  h ← get_float py_float item.2 "2. high";
  l ← get_float py_float item.2 "3. low";
  c ← get_float py_float item.2 "4. close";
  v ← get_int py_int item.2 "6. volume";
  Some {| Extracted.Symbol := symbol;
          Extracted.CompanyName := company_name;
          Extracted.Date := item.1;
          Extracted.OpenPrice := o;
          Extracted.High := h;
          Extracted.Low := l;
          Extracted.ClosePrice := c;
          Extracted.Volume := v |}.

(** [parse_stock_data]: any exception inside gives the empty frame, which
    is the empty list here (a frame built from no record has no column). *)
Definition parse_stock_data (py_float : string → option float)
    (py_int : string → option Z) (symbol : string)
    (stock_data : list (date * gmap string string)) : list Extracted.row :=
  match symbol_company symbol with
  | None => []
  | Some company_name =>
      default [] (mapM (parse_item py_float py_int symbol company_name) stock_data)
  end.

(** The loop of [extract_data] (lines 148-160) over the symbols left:
    [fetch] is what [fetch_stock_data] returns for a symbol; an answer that
    is [None] or empty is skipped; [df["Date"]] on the empty frame raises
    [KeyError]. *)
Fixpoint extract_symbols (py_float : string → option float)
    (py_int : string → option Z)
    (fetch : string → option (list (date * gmap string string)))
    (last_processed_date : date) (symbols : list string)
    : outcome (list (list Extracted.row)) :=
  match symbols with
  | [] => Returns []
  | symbol :: rest =>
      match fetch symbol with
      | Some (item :: items) =>
          match parse_stock_data py_float py_int symbol (item :: items) with
          | [] => Raises KeyError
          | record :: records =>
              let new_data :=
                filter (λ r, date_ltb last_processed_date (Extracted.Date r))
                  (record :: records) in
              match extract_symbols py_float py_int fetch last_processed_date rest with
              | Returns all_data => Returns (new_data :: all_data)
              | Raises e => Raises e
              end
          end
      | _ => extract_symbols py_float py_int fetch last_processed_date rest
      end
  end.

(** [extract_data]: the batch written to the output file, or [None] when
    nothing is new and the save is skipped. *)
Definition extract_data (py_float : string → option float)
    (py_int : string → option Z)
    (fetch : string → option (list (date * gmap string string)))
    (last_processed_date : option date) : outcome (option (list Extracted.row)) :=
  let last_processed_date := default (mkDate 2000 1 1) last_processed_date in
  match extract_symbols py_float py_int fetch last_processed_date SYMBOLS.*1 with
  | Raises e => Raises e
  | Returns all_data =>
      let combined_df := mjoin all_data in
      match combined_df with
      | [] => Returns None
      | _ => Returns (Some (drop_duplicates Extracted.key combined_df))
      end
  end.

(** The extracted file as the transformation reads it. *)
Definition read_extracted (r : Extracted.row) : Raw.row :=
  {| Raw.Symbol := Extracted.Symbol r;
     Raw.CompanyName := Extracted.CompanyName r;
     Raw.Date := Extracted.Date r;
     Raw.OpenPrice := norm (Extracted.OpenPrice r);
     Raw.High := norm (Extracted.High r);
     Raw.Low := norm (Extracted.Low r);
     Raw.ClosePrice := norm (Extracted.ClosePrice r);
     Raw.Volume := Some (Extracted.Volume r) |}.

(** ** Notions used in the further properties *)

(** A calendar day as [strftime] prints it: a month of two digits and a
    day of two digits. *)
Definition calendar_day (d : date) : Prop :=
  1 ≤ month d ≤ 12 ∧ 1 ≤ day d ≤ 31.

(** The sum of the [Volume] column over the input rows of one company, as
    an integer without bound. *)
Definition company_volume (k : Z) (df : list Agg.row) : Z :=
  foldr Z.add 0 (Agg.Volume <$> filter (λ r, Agg.CompanyID r = Some k) df).


(** In the batch, a Symbol and a resolved company stand for each other:
    the rows of a resolved company are the rows of one Symbol. *)
Definition one_symbol_per_company (input : list Raw.row) : Prop :=
  ∀ r q, r ∈ input → q ∈ input →
    is_Some (map_company_id (Raw.CompanyName r)) →
    (Raw.Symbol q = Raw.Symbol r
     ↔ map_company_id (Raw.CompanyName q) = map_company_id (Raw.CompanyName r)).

(** A sequence of identifiers without repetition: the [n]-th is a run of
    [n] letters. *)
Fixpoint run_of_a (n : nat) : string :=
  match n with
  | O => EmptyString
  | S n => String.append "a" (run_of_a n)
  end.

(** One company over six days, the close rising by one a day from 100. *)
Definition six_days : list Raw.row :=
  [ tick "MSFT" "Microsoft Corp." 11 100; tick "MSFT" "Microsoft Corp." 12 101;
    tick "MSFT" "Microsoft Corp." 13 102; tick "MSFT" "Microsoft Corp." 14 103;
    tick "MSFT" "Microsoft Corp." 15 104; tick "MSFT" "Microsoft Corp." 16 105 ]%float.

Definition six_days_frame : list Agg.row :=
  read_csv <$> transform_data (λ _, EmptyString) six_days None.




(** A reader of the few numbers of the sample answer. *)
Definition sample_float (text : string) : option float :=
  if decide (text = "100.0"%string) then Some 100%float
  else if decide (text = "110.0"%string) then Some 110%float
  else None.

Definition sample_int (text : string) : option Z :=
  if decide (text = "1000"%string) then Some 1000 else None.

Definition sample_metrics (close : string) : gmap string string :=
  list_to_map [ ("1. open", close); ("2. high", close); ("3. low", close);
                ("4. close", close); ("5. volume", "1000") ]%string.

(** The provider answers for Apple only, latest day first. *)
Definition sample_fetch (symbol : string)
    : option (list (date * gmap string string)) :=
  if decide (symbol = "AAPL"%string)
  then Some [ (mkDate 2024 11 13, sample_metrics "110.0");
              (mkDate 2024 11 12, sample_metrics "100.0") ]
  else None.

(** * Properties *)

(** ** Cells *)

Lemma norm_Some x y : norm x = Some y → y = x ∧ PrimFloat.is_nan y = false.
Proof.
  unfold norm. destruct (PrimFloat.is_nan x) eqn:E; [done|].
  intros [= <-]. done.
Qed.

Lemma lift2_Some op a b y :
  lift2 op a b = Some y → PrimFloat.is_nan y = false.
Proof.
  destruct a as [x|], b as [z|]; simpl; try done.
  intros H. by apply norm_Some in H as [_ ?].
Qed.

Lemma lift2_None_r op a : lift2 op a None = None.
Proof. by destruct a. Qed.

Lemma fillna_lift2 d op a b y : lift2 op a b = Some y → fillna d (lift2 op a b) = y.
Proof.
  intros H. rewrite H. simpl. by rewrite (lift2_Some _ _ _ _ H).
Qed.

Lemma nonnull_length (l : list cell) : (length (nonnull l) ≤ length l)%nat.
Proof.
  unfold nonnull. induction l as [|c l IH]; [done|].
  cbn [omap list_omap length].
  destruct (if isna c then None else c); cbn [length]; lia.
Qed.

(** ** Dates *)

Lemma date_ltb_irrefl d : date_ltb d d = false.
Proof.
  unfold date_ltb. rewrite !Z.ltb_irrefl, !Z.eqb_refl. done.
Qed.

Lemma date_ltb_trans a b c :
  date_ltb a b → date_ltb b c → date_ltb a c.
Proof.
  unfold date_ltb.
  rewrite !orb_True, !andb_True, !orb_True, !andb_True.
  rewrite !Is_true_true, !Z.ltb_lt, !Z.eqb_eq. lia.
Qed.

Lemma date_ltb_total a b : date_ltb a b ∨ a = b ∨ date_ltb b a.
Proof.
  unfold date_ltb.
  rewrite !orb_True, !andb_True, !orb_True, !andb_True.
  rewrite !Is_true_true, !Z.ltb_lt, !Z.eqb_eq.
  destruct a as [ya ma da], b as [yb mb db]; simpl.
  destruct (Z.lt_total ya yb) as [?|[->|?]]; [lia| |lia].
  destruct (Z.lt_total ma mb) as [?|[->|?]]; [lia| |lia].
  destruct (Z.lt_total da db) as [?|[->|?]]; [lia| |lia].
  right; left; done.
Qed.

(** ** Histories *)

Section HistoryFacts.
Context {A K : Type} `{EqDecision K} (key : A → option K).

Lemma with_history_fst (seen df : list A) :
  (with_history key seen df).*1 = df.
Proof.
  revert seen. induction df as [|r t IH]; intros seen; simpl; [done|].
  by rewrite IH.
Qed.

(** The rows of one group, picked out of the frame, carry the histories
    of that group walked on its own: a grouped operation never looks
    outside the group. *)
Lemma with_history_group k seen df :
  filter (λ p, key p.1 = Some k) (with_history key seen df)
  = histories (filter (same_group key (Some k)) seen)
      (filter (λ r, key r = Some k) df).
Proof.
  revert seen. induction df as [|r t IH]; intros seen; simpl; [done|].
  rewrite !filter_cons. simpl. rewrite IH.
  destruct (decide (key r = Some k)) as [E|E].
  - simpl. rewrite E. rewrite filter_cons_True; [done|].
    split; [by eexists|done].
  - rewrite filter_cons_False; [done|]. by intros [_ ?].
Qed.

Lemma histories_fst (h g : list A) : (histories h g).*1 = g.
Proof.
  revert h. induction g as [|r t IH]; intros h; simpl; [done|]. by rewrite IH.
Qed.

Lemma histories_lookup (h g : list A) i r hist :
  histories h g !! i = Some (r, hist) →
  g !! i = Some r ∧ hist = reverse (take i g) ++ h.
Proof.
  revert h i. induction g as [|x t IH]; intros h i; simpl; [done|].
  destruct i as [|i]; simpl.
  - intros [= -> ->]. done.
  - intros H. apply IH in H as [? ->]. split; [done|].
    by rewrite reverse_cons, <-app_assoc.
Qed.

(** Rows without a key do not take part in any group: dropping them
    from the frame leaves every other row's history unchanged. *)
Lemma with_history_dropna seen df :
  filter (λ p, is_Some (key p.1)) (with_history key seen df)
  = with_history key (filter (λ r, is_Some (key r)) seen)
      (filter (λ r, is_Some (key r)) df).
Proof.
  revert seen. induction df as [|r t IH]; intros seen; simpl; [done|].
  rewrite !filter_cons. simpl. rewrite IH.
  destruct (decide (is_Some (key r))) as [E|E].
  - simpl. rewrite filter_cons_True by done. f_equal. f_equal.
    rewrite list_filter_filter. apply list_filter_iff.
    intros p. unfold same_group. split; [|tauto].
    intros [? Hp]. repeat split; try done. by rewrite Hp.
  - by rewrite filter_cons_False.
Qed.

Lemma with_history_null seen df r hist :
  (r, hist) ∈ with_history key seen df → key r = None → hist = [].
Proof.
  revert seen. induction df as [|x t IH]; intros seen; simpl.
  - by intros ?%elem_of_nil.
  - intros [[= -> ->]|?]%elem_of_cons Hk; [|by eapply IH].
    rewrite Hk. clear. induction seen as [|p seen IHs]; [done|].
    rewrite filter_cons_False; [done|]. by intros [[? [=]] _].
Qed.
End HistoryFacts.

(** ** Dropping duplicates *)

Section DropDuplicates.
Context {A K : Type} `{EqDecision K} (key : A → K).

Lemma drop_duplicates_from_sublist seen df :
  drop_duplicates_from key seen df `sublist_of` df.
Proof.
  revert seen. induction df as [|r t IH]; intros seen; simpl; [done|].
  case_decide; [apply sublist_cons, IH | apply sublist_skip, IH].
Qed.

Lemma drop_duplicates_from_keys seen df k :
  k ∈ key <$> drop_duplicates_from key seen df ↔ k ∈ key <$> df ∧ k ∉ seen.
Proof.
  revert seen. induction df as [|r t IH]; intros seen; simpl.
  - rewrite elem_of_nil. tauto.
  - case_decide as E; rewrite ?fmap_cons, !elem_of_cons, IH.
    + split; [tauto|]. intros [[->|?] ?]; tauto.
    + rewrite not_elem_of_cons.
      destruct (decide (k = key r)) as [->|]; tauto.
Qed.

Lemma drop_duplicates_from_NoDup seen df :
  NoDup (key <$> drop_duplicates_from key seen df).
Proof.
  revert seen. induction df as [|r t IH]; intros seen; simpl.
  - constructor.
  - case_decide; [done|]. rewrite fmap_cons. constructor; [|done].
    rewrite drop_duplicates_from_keys, not_elem_of_cons. tauto.
Qed.

(** A row is kept exactly when no earlier row (and no key already
    seen) has its key. *)
Lemma drop_duplicates_from_first seen df r :
  r ∈ drop_duplicates_from key seen df →
  ∃ l1 l2, df = l1 ++ r :: l2 ∧ (key r ∉ key <$> l1) ∧ key r ∉ seen.
Proof.
  revert seen. induction df as [|x t IH]; intros seen; simpl.
  - by intros ?%elem_of_nil.
  - case_decide as E.
    + intros (l1 & l2 & -> & ? & ?)%IH. exists (x :: l1), l2.
      split_and!; [done| |done]. rewrite fmap_cons, not_elem_of_cons.
      split; [|done]. congruence.
    + intros [->|H]%elem_of_cons.
      * exists [], t. split_and!; [done| |done]. simpl. apply not_elem_of_nil.
      * apply IH in H as (l1 & l2 & -> & ? & [? ?]%not_elem_of_cons).
        exists (x :: l1), l2. split_and!; [done| |done].
        rewrite fmap_cons, not_elem_of_cons. done.
Qed.

Lemma drop_duplicates_from_keep seen l1 r l2 :
  key r ∉ key <$> l1 → key r ∉ seen →
  r ∈ drop_duplicates_from key seen (l1 ++ r :: l2).
Proof.
  revert seen. induction l1 as [|x t IH]; intros seen; simpl.
  - intros _ ?. rewrite decide_False by done. left.
  - rewrite not_elem_of_cons. intros [? ?] ?. case_decide.
    + by apply IH.
    + right. apply IH; [done|]. rewrite not_elem_of_cons. done.
Qed.

(** A relabelling of the rows that leaves the key alone commutes with
    the removal of duplicates. *)
Lemma drop_duplicates_from_fmap {B} (key' : B → K) (f : A → B) seen df :
  (∀ r, key' (f r) = key r) →
  drop_duplicates_from key' seen (f <$> df)
  = f <$> drop_duplicates_from key seen df.
Proof.
  intros Hk. revert seen. induction df as [|r t IH]; intros seen; simpl; [done|].
  rewrite Hk. case_decide; [done|]. by rewrite fmap_cons, IH.
Qed.
End DropDuplicates.

(** ** Lists *)

Lemma filter_fmap_comm {A B} (f : A → B) (P : B → Prop)
    `{∀ y, Decision (P y)} (l : list A) :
  filter P (f <$> l) = f <$> filter (λ x, P (f x)) l.
Proof.
  induction l as [|x l IH]; [done|].
  rewrite fmap_cons, !filter_cons, IH. by case_decide.
Qed.

Lemma sublist_fmap_mono {A B} (f : A → B) (l1 l2 : list A) :
  l1 `sublist_of` l2 → (f <$> l1) `sublist_of` (f <$> l2).
Proof. induction 1; simpl; by constructor. Qed.

Lemma StronglySorted_sublist {A} (R : A → A → Prop) (l1 l2 : list A) :
  l1 `sublist_of` l2 → StronglySorted R l2 → StronglySorted R l1.
Proof.
  induction 1 as [|x l1 l2 Hs IH|x l1 l2 Hs IH]; intros Hsorted.
  - constructor.
  - apply StronglySorted_inv in Hsorted as [Ht Hall]. constructor; [auto|].
    rewrite Forall_forall in Hall. apply Forall_forall. intros y Hy.
    apply Hall. by eapply sublist_subseteq.
  - apply StronglySorted_inv in Hsorted as [Ht _]. auto.
Qed.

(** ** The normalizer *)

Lemma stage_key uuid4 i r : Staged.key (stage uuid4 i r) = raw_key r.
Proof. done. Qed.

Lemma imap_stage_keys uuid4 (l : list Raw.row) :
  Staged.key <$> imap (stage uuid4) l = raw_key <$> l.
Proof.
  rewrite fmap_imap. rewrite <-(imap_const raw_key). by apply imap_ext.
Qed.

Lemma staged_frame_keys uuid4 input w :
  Staged.key <$> staged_frame uuid4 input w = raw_key <$> filter_watermark w input.
Proof. apply imap_stage_keys. Qed.

Lemma transform_frame_base uuid4 input w :
  Frame.base <$> transform_frame uuid4 input w
  = drop_duplicates Staged.key (staged_frame uuid4 input w).
Proof.
  unfold transform_frame. rewrite <-list_fmap_compose.
  apply (with_history_fst (λ r, Some (Staged.Symbol r))).
Qed.

Lemma transform_data_base uuid4 input w :
  Out.base <$> transform_data uuid4 input w
  = drop_duplicates Staged.key (staged_frame uuid4 input w).
Proof.
  unfold transform_data. rewrite <-list_fmap_compose.
  by rewrite <-transform_frame_base.
Qed.

Lemma filter_watermark_sublist w input : filter_watermark w input `sublist_of` input.
Proof. destruct w; simpl; [apply sublist_filter|done]. Qed.

(** Every stored row descends from a raw row that passed the filter, at the
    position where it stood in the filtered frame. *)
Lemma transform_data_origin uuid4 input w o :
  o ∈ transform_data uuid4 input w →
  ∃ l1 r l2, filter_watermark w input = l1 ++ r :: l2
    ∧ Out.base o = stage uuid4 (length l1) r
    ∧ raw_key r ∉ raw_key <$> l1.
Proof.
  intros Ho. apply (list_elem_of_fmap_2 Out.base) in Ho.
  rewrite transform_data_base in Ho.
  apply drop_duplicates_from_first in Ho as (s1 & s2 & Hs & Hfirst & _).
  assert (Hlen : (length s1 < length (filter_watermark w input))%nat).
  { rewrite <-(length_imap (stage uuid4)). fold (staged_frame uuid4 input w).
    rewrite Hs, length_app. simpl. lia. }
  apply lookup_lt_is_Some_2 in Hlen as [r Hr].
  exists (take (length s1) (filter_watermark w input)), r,
    (drop (S (length s1)) (filter_watermark w input)).
  assert (Hlt := lookup_lt_Some _ _ _ Hr).
  rewrite length_take_le by lia.
  assert (Hbase : Out.base o = stage uuid4 (length s1) r).
  { assert (staged_frame uuid4 input w !! length s1 = Some (Out.base o)) as Hl
      by (by rewrite Hs, list_lookup_middle).
    unfold staged_frame in Hl. rewrite list_lookup_imap, Hr in Hl.
    by injection Hl. }
  split_and!; [by rewrite take_drop_middle|done|].
  rewrite fmap_take, <-(staged_frame_keys uuid4), Hs, fmap_app, take_app_length'
    by (by rewrite length_fmap).
  by rewrite Hbase, stage_key in Hfirst.
Qed.

(** C4: with a watermark, the filter step keeps exactly the raw rows dated
    strictly after it, in their order; every stored row is dated strictly
    after the watermark and every raw row dated after it is represented by
    its (Symbol, Date) pair; when no row of the batch is dated after the
    watermark (so when the watermark is the batch's most recent date) the
    normalized output has no row. *)
Theorem watermark_cutoff_strict uuid4 input w :
  (∀ r, r ∈ filter_watermark (Some w) input ↔
        r ∈ input ∧ date_ltb w (Raw.Date r))
  ∧ filter_watermark (Some w) input `sublist_of` input
  ∧ (∀ o, o ∈ transform_data uuid4 input (Some w) →
          date_ltb w (Staged.Date (Out.base o)))
  ∧ (∀ r, r ∈ input → date_ltb w (Raw.Date r) →
          ∃ o, o ∈ transform_data uuid4 input (Some w)
               ∧ Staged.key (Out.base o) = raw_key r)
  ∧ ((w ∈ Raw.Date <$> input ∧ ∀ r, r ∈ input → ¬ date_ltb w (Raw.Date r)) →
     transform_data uuid4 input (Some w) = []).
Proof.
  assert (Hin : ∀ r, r ∈ filter_watermark (Some w) input ↔
                     r ∈ input ∧ date_ltb w (Raw.Date r)).
  { intros r. simpl. rewrite list_elem_of_filter. tauto. }
  split_and!.
  - done.
  - apply filter_watermark_sublist.
  - intros o (l1 & r & l2 & Hf & -> & _)%transform_data_origin. simpl.
    apply (Hin r). rewrite Hf. apply elem_of_app. right. left.
  - intros r Hr Hlt.
    assert (raw_key r ∈ Staged.key <$> drop_duplicates Staged.key
              (staged_frame uuid4 input (Some w))) as Hk.
    { apply drop_duplicates_from_keys. split; [|apply not_elem_of_nil].
      rewrite staged_frame_keys. apply list_elem_of_fmap_2. by apply Hin. }
    rewrite <-transform_data_base, <-list_fmap_compose in Hk.
    apply list_elem_of_fmap in Hk as (o & Hko & Ho). by exists o.
  - intros [_ Hnone].
    assert (filter_watermark (Some w) input = []) as Hnil.
    { apply elem_of_nil_inv. intros r [? ?]%Hin. by eapply Hnone. }
    unfold transform_data, transform_frame. by rewrite Hnil.
Qed.

Lemma watermark_cutoff_strict_witness :
  transform_data (λ _, EmptyString) two_days (Some (mkDate 2024 11 13)) = [].
Proof.
  apply (watermark_cutoff_strict (λ _, EmptyString) two_days (mkDate 2024 11 13)).
  split.
  - vm_compute. right. left.
  - intros r Hr. unfold two_days in Hr.
    repeat (apply elem_of_cons in Hr as [->|Hr]); try (vm_compute; tauto).
    by apply elem_of_nil in Hr.
Defined.

(** C5: the normalized output holds each (Symbol, Date) pair of the filtered
    input exactly once: its pairs are distinct, they are the pairs of the
    filtered input, each stored row is the first row of the filtered input
    with its pair, every such first row is stored, the stored rows keep the
    filtered order, and their number is the number of distinct pairs. *)
Theorem dedup_keeps_first_occurrence uuid4 input w :
  let filtered := filter_watermark w input in
  let out := transform_data uuid4 input w in
  NoDup (Staged.key <$> (Out.base <$> out))
  ∧ (∀ k, k ∈ Staged.key <$> (Out.base <$> out) ↔ k ∈ raw_key <$> filtered)
  ∧ (∀ o, o ∈ out →
       ∃ l1 r l2, filtered = l1 ++ r :: l2
         ∧ Out.base o = stage uuid4 (length l1) r
         ∧ raw_key r ∉ raw_key <$> l1)
  ∧ (∀ l1 r l2, filtered = l1 ++ r :: l2 → raw_key r ∉ raw_key <$> l1 →
       ∃ o, o ∈ out ∧ Out.base o = stage uuid4 (length l1) r)
  ∧ (Out.base <$> out) `sublist_of` imap (stage uuid4) filtered
  ∧ length out = length (remove_dups (raw_key <$> filtered)).
Proof.
  intros filtered out.
  assert (Hkeys : ∀ k, k ∈ Staged.key <$> (Out.base <$> out) ↔
                       k ∈ raw_key <$> filtered).
  { intros k. unfold out. rewrite transform_data_base.
    unfold drop_duplicates. rewrite drop_duplicates_from_keys, staged_frame_keys.
    split; [tauto|]. split; [done|apply not_elem_of_nil]. }
  assert (Hnodup : NoDup (Staged.key <$> (Out.base <$> out))).
  { unfold out. rewrite transform_data_base. apply drop_duplicates_from_NoDup. }
  split_and!; try done.
  - intros o. apply transform_data_origin.
  - intros l1 r l2 Hf Hfirst.
    assert (stage uuid4 (length l1) r ∈ Out.base <$> out) as Hin.
    { unfold out. rewrite transform_data_base. unfold staged_frame.
      fold filtered. rewrite Hf, imap_app, imap_cons, Nat.add_0_r.
      apply drop_duplicates_from_keep; [|apply not_elem_of_nil].
      by rewrite stage_key, imap_stage_keys. }
    apply list_elem_of_fmap in Hin as (o & ? & ?). by exists o.
  - unfold out. rewrite transform_data_base. apply drop_duplicates_from_sublist.
  - rewrite <-(length_fmap Out.base), <-(length_fmap Staged.key).
    apply Permutation_length, NoDup_Permutation; [done|apply NoDup_remove_dups|].
    intros k. by rewrite Hkeys, elem_of_remove_dups.
Qed.

Lemma dedup_keeps_first_occurrence_witness :
  ∃ o, o ∈ transform_data (λ _, EmptyString) with_repeats None
       ∧ Out.base o
         = stage (λ _, EmptyString) 1 (tick "AAPL" "Apple Inc." 13 110%float).
Proof.
  apply (dedup_keeps_first_occurrence (λ _, EmptyString) with_repeats None)
    with (l1 := [tick "AAPL" "Apple Inc." 12 100%float])
         (l2 := [tick "AAPL" "Apple Inc." 12 101%float;
                 tick "MSFT" "Microsoft Corp." 12 200%float]).
  - reflexivity.
  - vm_compute. intros [[=]|[]%elem_of_nil]%elem_of_cons.
Defined.

(** ** Row order *)

Lemma transform_data_order_columns uuid4 input w :
  (order_columns <$> (Out.base <$> transform_data uuid4 input w))
    `sublist_of` (raw_order_columns <$> input).
Proof.
  rewrite transform_data_base.
  transitivity (order_columns <$> staged_frame uuid4 input w).
  - apply sublist_fmap_mono, drop_duplicates_from_sublist.
  - unfold staged_frame. rewrite fmap_imap.
    erewrite imap_ext; [rewrite (imap_const raw_order_columns)|done].
    apply sublist_fmap_mono, filter_watermark_sublist.
Qed.

(** C2 (as the code has it): no step of [transform_data] sorts.  The output
    rows stand in the order of the input rows they come from, so the output
    is ordered by CompanyID then Date whenever the input batch already is
    (and, generally, keeps any order the input rows have). *)
Theorem output_keeps_input_order uuid4 input w :
  (Out.base <$> transform_data uuid4 input w)
    `sublist_of` imap (stage uuid4) (filter_watermark w input)
  ∧ filter_watermark w input `sublist_of` input
  ∧ (ordered_by_company_then_date (raw_order_columns <$> input) →
     ordered_by_company_then_date
       (order_columns <$> (Out.base <$> transform_data uuid4 input w)))
  ∧ (∀ R, StronglySorted R (raw_order_columns <$> input) →
          StronglySorted R
            (order_columns <$> (Out.base <$> transform_data uuid4 input w))).
Proof.
  split_and!.
  - rewrite transform_data_base. apply drop_duplicates_from_sublist.
  - apply filter_watermark_sublist.
  - apply StronglySorted_sublist, transform_data_order_columns.
  - intros R. apply StronglySorted_sublist, transform_data_order_columns.
Qed.

Lemma output_keeps_input_order_witness :
  ordered_by_company_then_date
    (order_columns <$>
       (Out.base <$> transform_data (λ _, EmptyString) two_days None)).
Proof.
  apply (output_keeps_input_order (λ _, EmptyString) two_days None).
  unfold ordered_by_company_then_date. vm_compute.
  repeat (constructor; [|repeat constructor; vm_compute; intuition lia]).
  constructor.
Defined.

(** On a batch that lists Microsoft before Apple, and Apple's later day
    before its earlier one, the output has the CompanyID column 2, 1, 1 and
    the dates in the same order as the input. *)
Lemma output_not_sorted :
  order_columns <$> (Out.base <$> transform_data (λ _, EmptyString) unsorted_batch None)
    = [ (Some 2, mkDate 2024 11 13); (Some 1, mkDate 2024 11 13);
        (Some 1, mkDate 2024 11 12) ]
  ∧ ¬ ordered_by_company_then_date
        (order_columns <$>
           (Out.base <$> transform_data (λ _, EmptyString) unsorted_batch None)).
Proof.
  assert (E : order_columns <$>
               (Out.base <$> transform_data (λ _, EmptyString) unsorted_batch None)
              = [ (Some 2, mkDate 2024 11 13); (Some 1, mkDate 2024 11 13);
                  (Some 1, mkDate 2024 11 12) ]) by (vm_compute; reflexivity).
  split; [done|]. rewrite E. intros H.
  apply StronglySorted_inv in H as [_ H].
  apply Forall_inv in H. unfold company_date_le in H. simpl in H.
  destruct H as [?|[? _]]; lia.
Qed.

(** ** Two runs on the same input *)

Lemma with_history_fmap {A B K} `{EqDecision K}
    (key : A → option K) (key' : B → option K) (f : A → B)
    (seen df : list A) :
  (∀ r, key' (f r) = key r) →
  with_history key' (f <$> seen) (f <$> df)
  = prod_map f (fmap (M := list) f) <$> with_history key seen df.
Proof.
  intros Hk. revert seen. induction df as [|r t IH]; intros seen; [done|].
  cbn [fmap list_fmap with_history]. rewrite <-fmap_cons, IH. f_equal.
  unfold prod_map. simpl. f_equal.
  rewrite filter_fmap_comm. f_equal. apply list_filter_iff.
  intros x. unfold same_group. by rewrite !Hk.
Qed.

Lemma shift1_fmap {A B} (f : A → B) (col : B → cell) (hist : list A) :
  shift1 col (f <$> hist) = shift1 (col ∘ f) hist.
Proof. by destruct hist. Qed.

Lemma transform_data_blank uuid4 input w :
  blank_record_id <$> transform_data uuid4 input w
  = transform_data (λ _, EmptyString) input w.
Proof.
  unfold transform_data, transform_frame.
  assert (imap (stage (λ _, EmptyString)) (filter_watermark w input)
          = set_record_id EmptyString
              <$> imap (stage uuid4) (filter_watermark w input)) as ->.
  { rewrite fmap_imap. by apply imap_ext. }
  unfold drop_duplicates.
  rewrite (drop_duplicates_from_fmap Staged.key Staged.key) by done.
  pose proof (with_history_fmap (λ r, Some (Staged.Symbol r))
                (λ r, Some (Staged.Symbol r)) (set_record_id EmptyString) []
                (drop_duplicates_from Staged.key []
                   (imap (stage uuid4) (filter_watermark w input)))
                (λ _, eq_refl)) as Hh.
  cbn [fmap list_fmap] in Hh. rewrite Hh. clear Hh.
  rewrite <-!list_fmap_compose. apply list_fmap_ext.
  intros _ [r hist] _. unfold compose, prod_map, add_daily_return, select,
    blank_record_id. simpl. by rewrite shift1_fmap.
Qed.

(** C9: two runs of the normalizer on the same batch and watermark, with
    whatever identifiers the two runs draw, produce outputs that agree in
    every column except RecordID. *)
Theorem transform_data_two_runs uuid4 uuid4' input w :
  blank_record_id <$> transform_data uuid4 input w
  = blank_record_id <$> transform_data uuid4' input w.
Proof. by rewrite !transform_data_blank. Qed.

(** ** The daily return *)

Lemma histories_lookup_S {A} (h g : list A) i p hp r hr :
  histories h g !! i = Some (p, hp) →
  histories h g !! S i = Some (r, hr) →
  hr = p :: hp.
Proof.
  revert h i. induction g as [|x t IH]; intros h i; [done|].
  destruct i as [|i]; simpl.
  - intros [= -> ->]. destruct t; simpl; [done|]. by intros [= _ <-].
  - apply IH.
Qed.

(** The rows of one Symbol carry the daily return computed on that
    Symbol's rows alone, walked in frame order. *)
Lemma symbol_partition_histories uuid4 input w s :
  symbol_partition s (transform_frame uuid4 input w)
  = add_daily_return
      <$> histories []
            (filter (λ r, Staged.Symbol r = s)
               (drop_duplicates Staged.key (staged_frame uuid4 input w))).
Proof.
  unfold symbol_partition, transform_frame. fold (staged_frame uuid4 input w).
  rewrite filter_fmap_comm. f_equal.
  erewrite (list_filter_iff _ (λ p, Some (Staged.Symbol p.1) = Some s));
    [|intros p; simpl; split; congruence].
  rewrite (with_history_group (λ r, Some (Staged.Symbol r))). simpl.
  f_equal. apply list_filter_iff. intros r. split; congruence.
Qed.

(** C1 (as the code has it): within each Symbol's rows, taken in the order
    in which the frame lists them (no step sorts by Date), the first row has
    a null PreviousClosePrice and the DailyReturn 0.0; every later row has
    the ClosePrice of the row before it as PreviousClosePrice, the DailyReturn
    0.0 when the quotient (ClosePrice - PreviousClosePrice) /
    PreviousClosePrice is null, and that quotient as DailyReturn when it is
    not null and PreviousClosePrice is not zero. *)
Theorem daily_return_in_frame_order uuid4 input w s :
  let part := symbol_partition s (transform_frame uuid4 input w) in
  (Frame.base <$> part) `sublist_of` staged_frame uuid4 input w
  ∧ (∀ r, head part = Some r →
       Frame.PreviousClosePrice r = None ∧ Frame.DailyReturn r = 0%float)
  ∧ (∀ i p r, part !! i = Some p → part !! S i = Some r →
       let quotient :=
         fdiv (fsub (Some (close_of r)) (Some (close_of p))) (Some (close_of p)) in
       Frame.PreviousClosePrice r = Some (close_of p)
       ∧ (quotient = None → Frame.DailyReturn r = 0%float)
       ∧ (∀ x, PrimFloat.eqb (close_of p) 0 = false →
               quotient = Some x → Frame.DailyReturn r = x)).
Proof.
  intros part. split_and!.
  - unfold part, symbol_partition.
    assert (Frame.base <$> filter (λ r, Staged.Symbol (Frame.base r) = s)
                             (transform_frame uuid4 input w)
            = filter (λ b, Staged.Symbol b = s)
                (Frame.base <$> transform_frame uuid4 input w)) as ->
      by (symmetry; apply filter_fmap_comm).
    rewrite transform_frame_base.
    etransitivity; [apply sublist_filter|apply drop_duplicates_from_sublist].
  - intros r. unfold part. rewrite symbol_partition_histories.
    destruct (filter _ _) as [|x g]; [done|]. by intros [= <-].
  - intros i p r. unfold part. rewrite symbol_partition_histories.
    rewrite !list_lookup_fmap.
    destruct (histories _ _ !! i) as [[x hx]|] eqn:Hi; [|done].
    destruct (histories _ _ !! S i) as [[y hy]|] eqn:HSi; [|done].
    simpl. intros [= <-] [= <-].
    rewrite (histories_lookup_S _ _ _ _ _ _ _ Hi HSi).
    unfold add_daily_return, close_of, daily_return, shift1. simpl.
    split_and!; [done| |].
    + by intros ->.
    + intros q _ Hq. by apply fillna_lift2.
Qed.

Lemma daily_return_in_frame_order_witness :
  ∃ p r,
    symbol_partition "AAPL" (transform_frame (λ _, EmptyString) two_days None)
      !! 0%nat = Some p
    ∧ symbol_partition "AAPL" (transform_frame (λ _, EmptyString) two_days None)
      !! 1%nat = Some r
    ∧ Frame.PreviousClosePrice r = Some 100%float
    ∧ Frame.DailyReturn r = (10 / 100)%float.
Proof.
  eexists _, _.
  assert (H0 : symbol_partition "AAPL"
                 (transform_frame (λ _, EmptyString) two_days None) !! 0%nat
               = Some _) by (vm_compute; reflexivity).
  assert (H1 : symbol_partition "AAPL"
                 (transform_frame (λ _, EmptyString) two_days None) !! 1%nat
               = Some _) by (vm_compute; reflexivity).
  split; [exact H0|]. split; [exact H1|].
  pose proof (daily_return_in_frame_order (λ _, EmptyString) two_days None "AAPL")
    as (_ & _ & H).
  destruct (H _ _ _ H0 H1) as (Hp & _ & Hq).
  split; [exact Hp|]. apply Hq; vm_compute; reflexivity.
Defined.

(** On a batch that lists a Symbol's days latest first, the earliest day
    is not the first row of the partition: it has the later day's close as
    PreviousClosePrice and a negative DailyReturn. *)
Lemma earliest_day_has_previous_close :
  ∃ r, first_chronological r
         (transform_frame (λ _, EmptyString) descending_batch None)
       ∧ Frame.PreviousClosePrice r = Some 110%float
       ∧ PrimFloat.ltb (Frame.DailyReturn r) 0 = true
       ∧ Frame.DailyReturn r ≠ 0%float.
Proof.
  assert (∃ r0 r1,
            transform_frame (λ _, EmptyString) descending_batch None = [r0; r1]
            ∧ Staged.Date (Frame.base r0) = mkDate 2024 11 13
            ∧ Staged.Date (Frame.base r1) = mkDate 2024 11 12
            ∧ Frame.PreviousClosePrice r1 = Some 110%float
            ∧ PrimFloat.ltb (Frame.DailyReturn r1) 0 = true)
    as (r0 & r1 & E & D0 & D1 & HP & HL).
  { eexists _, _. split; [vm_compute; reflexivity|].
    repeat split; vm_compute; reflexivity. }
  exists r1. rewrite E. split_and!; [|done|done|].
  - split; [set_solver|].
    intros q Hq _. repeat (apply elem_of_cons in Hq as [->|Hq]).
    + rewrite D0, D1. vm_compute. tauto.
    + rewrite D1. vm_compute. tauto.
    + by apply elem_of_nil in Hq.
  - intros Hz. rewrite Hz in HL. vm_compute in HL. discriminate.
Qed.

(** A zero PreviousClosePrice under a non-zero ClosePrice gives an infinite
    quotient, which [fillna] leaves in place; only 0/0 is null. *)
Lemma daily_return_zero_divisor :
  daily_return 5 (Some 0%float) = infinity
  ∧ daily_return 0 (Some 0%float) = 0%float.
Proof. split; vm_compute; reflexivity. Qed.

Lemma daily_return_after_missing_close :
  Frame.DailyReturn <$> transform_frame (λ _, EmptyString) missing_close_batch None
  = [0%float; infinity].
Proof. vm_compute. reflexivity. Qed.

(** ** The aggregator *)

Lemma elem_of_insert_key k l x : x ∈ insert_key k l ↔ x = k ∨ x ∈ l.
Proof.
  induction l as [|h t IH]; simpl.
  - by rewrite elem_of_cons.
  - destruct (k <? h) eqn:E1; [by rewrite elem_of_cons|].
    destruct (k =? h) eqn:E2.
    + apply Z.eqb_eq in E2 as ->. rewrite elem_of_cons. tauto.
    + rewrite !elem_of_cons, IH. tauto.
Qed.

Lemma insert_key_sorted k l :
  StronglySorted Z.lt l → StronglySorted Z.lt (insert_key k l).
Proof.
  induction 1 as [|h t Hs IH Hall]; simpl.
  - repeat constructor.
  - destruct (k <? h) eqn:E1.
    + apply Z.ltb_lt in E1. constructor; [by constructor|].
      constructor; [done|]. eapply Forall_impl; [done|]. simpl. lia.
    + destruct (k =? h) eqn:E2; [by constructor|].
      apply Z.ltb_ge in E1. apply Z.eqb_neq in E2.
      constructor; [done|]. apply Forall_forall.
      intros x [->|Hx]%elem_of_insert_key; [lia|].
      rewrite Forall_forall in Hall. auto.
Qed.

Lemma group_keys_sorted ids : StronglySorted Z.lt (group_keys ids).
Proof.
  induction ids as [|[k|] ids IH]; simpl; [constructor| |done].
  by apply insert_key_sorted.
Qed.

Lemma group_keys_NoDup ids : NoDup (group_keys ids).
Proof.
  generalize (group_keys_sorted ids).
  induction 1 as [|h t Hs IH Hall]; constructor; [|done].
  intros Hin. rewrite Forall_forall in Hall. specialize (Hall _ Hin). lia.
Qed.

Lemma elem_of_group_keys ids k : k ∈ group_keys ids ↔ Some k ∈ ids.
Proof.
  induction ids as [|[x|] ids IH]; simpl.
  - by rewrite !elem_of_nil.
  - rewrite elem_of_insert_key, elem_of_cons, IH.
    split; [intros [->|?]; auto|intros [[= ->]|?]; auto].
  - rewrite elem_of_cons, IH. split; [auto|by intros [?|?]].
Qed.

Lemma group_keys_dropna {A} (id : A → option Z) (df : list A) :
  group_keys (id <$> filter (λ r, is_Some (id r)) df) = group_keys (id <$> df).
Proof.
  unfold group_keys. induction df as [|r df IH]; [done|].
  rewrite filter_cons. destruct (decide (is_Some (id r))) as [E|E].
  - rewrite !fmap_cons. simpl. by rewrite IH.
  - rewrite fmap_cons. simpl. rewrite IH. destruct (id r); [|done].
    by destruct E.
Qed.

Lemma enrich_frame_base df : Enriched.base <$> enrich_frame df = df.
Proof.
  unfold enrich_frame. rewrite <-list_fmap_compose.
  apply (with_history_fst Agg.CompanyID).
Qed.

Lemma enrich_frame_ids df : Enriched.CompanyID <$> enrich_frame df = Agg.CompanyID <$> df.
Proof.
  rewrite <-(enrich_frame_base df) at 2. by rewrite <-list_fmap_compose.
Qed.

(** The rows of one company carry the columns computed on that company's
    rows alone, walked in frame order. *)
Lemma group_histories k df :
  group k (enrich_frame df)
  = enrich <$> histories [] (filter (λ r, Agg.CompanyID r = Some k) df).
Proof.
  unfold group, enrich_frame. rewrite filter_fmap_comm. f_equal.
  apply (with_history_group Agg.CompanyID k [] df).
Qed.

Lemma group_length k df :
  length (group k (enrich_frame df))
  = length (filter (λ r, Agg.CompanyID r = Some k) df).
Proof.
  rewrite group_histories, length_fmap, <-(length_fmap fst), histories_fst. done.
Qed.

Lemma enrich_frame_dropna df :
  enrich_frame (filter (λ r, is_Some (Agg.CompanyID r)) df)
  = filter (λ r, is_Some (Enriched.CompanyID r)) (enrich_frame df).
Proof.
  unfold enrich_frame. rewrite filter_fmap_comm. f_equal.
  symmetry. apply (with_history_dropna Agg.CompanyID [] df).
Qed.

Lemma group_dropna k df :
  group k (enrich_frame (filter (λ r, is_Some (Agg.CompanyID r)) df))
  = group k (enrich_frame df).
Proof.
  rewrite enrich_frame_dropna. unfold group. rewrite list_filter_filter.
  apply list_filter_iff. intros r. split; [tauto|].
  intros Hr. split; [done|]. by rewrite Hr.
Qed.

Lemma groupby_agg_dropna {T} (f : list Enriched.row → T) df :
  groupby_agg f (enrich_frame (filter (λ r, is_Some (Agg.CompanyID r)) df))
  = groupby_agg f (enrich_frame df).
Proof.
  unfold groupby_agg. rewrite !enrich_frame_ids, group_keys_dropna.
  apply list_fmap_ext. intros _ k _. by rewrite group_dropna.
Qed.

(** *** The merge *)

Lemma filter_key_table {B} (f : Z → B) (ks : list Z) k :
  NoDup ks → k ∈ ks →
  filter (λ r : Z * B, r.1 = k) ((λ k, (k, f k)) <$> ks) = [(k, f k)].
Proof.
  induction 1 as [|h t Hnotin Hnodup IH]; [by intros ?%elem_of_nil|].
  rewrite fmap_cons, filter_cons. simpl. intros Hin.
  destruct (decide (h = k)) as [->|Hne].
  - f_equal. apply elem_of_nil_inv. intros r Hr.
    apply list_elem_of_filter in Hr as [Hr1 Hr2].
    apply list_elem_of_fmap in Hr2 as (k' & -> & ?). simpl in Hr1. by subst.
  - apply IH. apply elem_of_cons in Hin as [?|?]; [congruence|done].
Qed.

(** Two tables over the same distinct keys merge row by row: every left
    row meets exactly one right row. *)
Lemma merge_same_keys {A B} (f : Z → A) (g : Z → B) (ks : list Z) :
  NoDup ks →
  merge ((λ k, (k, f k)) <$> ks) ((λ k, (k, g k)) <$> ks)
  = (λ k, (k, (f k, Some (g k)))) <$> ks.
Proof.
  intros Hnodup. unfold merge.
  assert (∀ ks', ks' ⊆ ks →
            ((λ k, (k, f k)) <$> ks') ≫=
              (λ l : Z * A,
                 match filter (λ r : Z * B, r.1 = l.1) ((λ k, (k, g k)) <$> ks) with
                 | [] => [(l.1, (l.2, None))]
                 | m :: ms => (λ r : Z * B, (l.1, (l.2, Some r.2))) <$> m :: ms
                 end)
            = (λ k, (k, (f k, Some (g k)))) <$> ks') as Hgen.
  { induction ks' as [|k ks' IH]; intros Hsub; [done|].
    rewrite !fmap_cons, bind_cons. simpl.
    rewrite filter_key_table by (done || apply Hsub; left). simpl.
    f_equal. apply IH. intros x Hx. apply Hsub. by right. }
  by apply Hgen.
Qed.

Lemma aggregate_data_closed_form df :
  aggregate_data df
  = (λ k, aggregate_group k (group k (enrich_frame df)))
      <$> group_keys (Agg.CompanyID <$> df).
Proof.
  unfold aggregate_data, company_performance_summary, total_trading_volume,
    daily_returns, volatility_index, moving_averages, trend_analysis,
    high_low_ratios, volume_analysis, groupby_agg.
  rewrite enrich_frame_ids.
  pose proof (group_keys_NoDup (Agg.CompanyID <$> df)) as Hnodup.
  set (ks := group_keys (Agg.CompanyID <$> df)) in *.
  set (E := enrich_frame df).
  rewrite (merge_same_keys (λ k, summary_agg (group k E))
             (λ k, total_volume_agg (group k E))) by done.
  rewrite (merge_same_keys _ (λ k, daily_return_agg (group k E))) by done.
  rewrite (merge_same_keys _ (λ k, volatility_agg (group k E))) by done.
  rewrite (merge_same_keys _ (λ k, moving_average_agg (group k E))) by done.
  rewrite (merge_same_keys _ (λ k, trend_agg (group k E))) by done.
  rewrite (merge_same_keys _ (λ k, high_low_agg (group k E))) by done.
  rewrite (merge_same_keys _ (λ k, average_volume_agg (group k E))) by done.
  rewrite <-list_fmap_compose. apply list_fmap_ext. intros _ k _.
  unfold compose, aggregate_group. simpl.
  by destruct (summary_agg (group k E)) as [[? ?] ?].
Qed.

Lemma aggregate_data_ids df :
  CompanyID <$> aggregate_data df = group_keys (Agg.CompanyID <$> df).
Proof.
  rewrite aggregate_data_closed_form, <-list_fmap_compose.
  rewrite <-(list_fmap_id (group_keys _)) at 2. by apply list_fmap_ext.
Qed.

Lemma groupby_agg_ids {T} (f : list Enriched.row → T) df :
  (groupby_agg f (enrich_frame df)).*1 = group_keys (Agg.CompanyID <$> df).
Proof.
  unfold groupby_agg. rewrite enrich_frame_ids, <-list_fmap_compose.
  rewrite <-(list_fmap_id (group_keys _)) at 2. by apply list_fmap_ext.
Qed.

(** C7: the merged aggregate has exactly one row for each distinct
    CompanyID of the input; each of the eight facets has exactly these
    keys, and the chain of left joins neither drops nor adds one: every
    merged row is assembled from the eight reductions of its own company's
    group. *)
Theorem merge_one_row_per_company df :
  let out := aggregate_data df in
  let E := enrich_frame df in
  NoDup (CompanyID <$> out)
  ∧ (∀ k, k ∈ CompanyID <$> out ↔ ∃ r, r ∈ df ∧ Agg.CompanyID r = Some k)
  ∧ ((company_performance_summary E).*1 = CompanyID <$> out
     ∧ (total_trading_volume E).*1 = CompanyID <$> out
     ∧ (daily_returns E).*1 = CompanyID <$> out
     ∧ (volatility_index E).*1 = CompanyID <$> out
     ∧ (moving_averages E).*1 = CompanyID <$> out
     ∧ (trend_analysis E).*1 = CompanyID <$> out
     ∧ (high_low_ratios E).*1 = CompanyID <$> out
     ∧ (volume_analysis E).*1 = CompanyID <$> out)
  ∧ out = (λ k, aggregate_group k (group k E)) <$> (CompanyID <$> out)
  ∧ StronglySorted Z.lt (CompanyID <$> out).
Proof.
  intros out E. unfold out, E. rewrite aggregate_data_ids.
  split_and!.
  - apply group_keys_NoDup.
  - intros k. rewrite elem_of_group_keys, list_elem_of_fmap.
    split; [intros (r & ? & ?); by exists r|intros (r & ? & ?); by exists r].
  - apply groupby_agg_ids.
  - apply groupby_agg_ids.
  - apply groupby_agg_ids.
  - apply groupby_agg_ids.
  - apply groupby_agg_ids.
  - apply groupby_agg_ids.
  - apply groupby_agg_ids.
  - apply groupby_agg_ids.
  - apply aggregate_data_closed_form.
  - apply group_keys_sorted.
Qed.

(** ** Unresolved companies *)

Lemma transform_data_company_id uuid4 input w o :
  o ∈ transform_data uuid4 input w →
  Staged.CompanyID (Out.base o) = map_company_id (Staged.CompanyName (Out.base o)).
Proof. by intros (l1 & r & l2 & _ & -> & _)%transform_data_origin. Qed.

(** C10: a company name that the mapping does not hold resolves to a null
    CompanyID, in [map_company_id] and so in every stored row; the rows
    with a null CompanyID are in no group, every one of the eight facets is
    what it would be without them, and so is the merged aggregate, each row
    of which carries the CompanyID of some input row. *)
Theorem null_company_left_out_of_aggregate df :
  let known := filter (λ r, is_Some (Agg.CompanyID r)) df in
  (∀ name, name ∉ dom COMPANY_ID_MAP → map_company_id name = None)
  ∧ (∀ uuid4 input w o, o ∈ transform_data uuid4 input w →
       Staged.CompanyName (Out.base o) ∉ dom COMPANY_ID_MAP →
       Agg.CompanyID (read_csv o) = None)
  ∧ (∀ k r, r ∈ group k (enrich_frame df) → Enriched.CompanyID r = Some k)
  ∧ (company_performance_summary (enrich_frame df)
       = company_performance_summary (enrich_frame known)
     ∧ total_trading_volume (enrich_frame df)
       = total_trading_volume (enrich_frame known)
     ∧ daily_returns (enrich_frame df) = daily_returns (enrich_frame known)
     ∧ volatility_index (enrich_frame df) = volatility_index (enrich_frame known)
     ∧ moving_averages (enrich_frame df) = moving_averages (enrich_frame known)
     ∧ trend_analysis (enrich_frame df) = trend_analysis (enrich_frame known)
     ∧ high_low_ratios (enrich_frame df) = high_low_ratios (enrich_frame known)
     ∧ volume_analysis (enrich_frame df) = volume_analysis (enrich_frame known))
  ∧ aggregate_data df = aggregate_data known
  ∧ (∀ a, a ∈ aggregate_data df →
       ∃ r, r ∈ df ∧ Agg.CompanyID r = Some (CompanyID a)).
Proof.
  intros known.
  assert (Hmap : ∀ name, name ∉ dom COMPANY_ID_MAP → map_company_id name = None)
    by (intros name; apply not_elem_of_dom).
  split_and!; try (symmetry; apply groupby_agg_dropna).
  - done.
  - intros uuid4 input w o Ho Hname. simpl.
    rewrite (transform_data_company_id _ _ _ _ Ho). by apply Hmap.
  - intros k r. unfold group. rewrite list_elem_of_filter. tauto.
  - subst known.
    unfold aggregate_data, company_performance_summary, total_trading_volume,
      daily_returns, volatility_index, moving_averages, trend_analysis,
      high_low_ratios, volume_analysis.
    by rewrite !groupby_agg_dropna.
  - intros a Ha. apply (list_elem_of_fmap_2 CompanyID) in Ha.
    rewrite aggregate_data_ids, elem_of_group_keys, list_elem_of_fmap in Ha.
    destruct Ha as (r & ? & ?). by exists r.
Qed.

Lemma null_company_left_out_of_aggregate_witness :
  ∃ o, transform_data (λ _, EmptyString) unknown_company_batch None !! 1%nat = Some o
       ∧ Agg.CompanyID (read_csv o) = None
       ∧ CompanyID <$> aggregate_data
           (read_csv <$> transform_data (λ _, EmptyString) unknown_company_batch None)
         = [1].
Proof.
  eexists.
  assert (Ho : transform_data (λ _, EmptyString) unknown_company_batch None
                 !! 1%nat = Some _) by (vm_compute; reflexivity).
  split; [exact Ho|]. split; [|vm_compute; reflexivity].
  eapply (null_company_left_out_of_aggregate []).
  - eapply list_elem_of_lookup_2, Ho.
  - apply not_elem_of_dom. vm_compute. reflexivity.
Defined.

(** ** Volatility *)

Lemma agg_std_single (l : list cell) : length l = 1%nat → agg_std l = None.
Proof.
  intros Hl. unfold agg_std.
  pose proof (nonnull_length l) as Hn. rewrite Hl in Hn.
  by rewrite bool_decide_eq_true_2.
Qed.

(** C3 (as the code has it): the VolatilityIndex of a company is the sample
    standard deviation of its recomputed DailyReturn values, and for a
    company with exactly one row in the input it is null. *)
Theorem single_row_volatility_is_null df a :
  a ∈ aggregate_data df →
  VolatilityIndex a
  = agg_std ((λ r, Some (Enriched.DailyReturn r))
               <$> group (CompanyID a) (enrich_frame df))
  ∧ (length (filter (λ r, Agg.CompanyID r = Some (CompanyID a)) df) = 1%nat →
     VolatilityIndex a = None).
Proof.
  rewrite aggregate_data_closed_form.
  intros (k & -> & _)%list_elem_of_fmap. simpl. split; [done|].
  intros Hone. apply agg_std_single. unfold column.
  by rewrite length_fmap, group_length.
Qed.

Lemma single_row_volatility_is_null_witness :
  VolatilityIndex <$> aggregate_data one_row_per_company = [None; None]
  ∧ ∀ a, a ∈ aggregate_data one_row_per_company → VolatilityIndex a = None.
Proof.
  split; [vm_compute; reflexivity|].
  intros a Ha.
  apply (single_row_volatility_is_null one_row_per_company a Ha).
  assert (CompanyID a = 1 ∨ CompanyID a = 2) as [-> | ->];
    [|vm_compute; reflexivity..].
  apply (list_elem_of_fmap_2 CompanyID) in Ha.
  rewrite aggregate_data_ids in Ha. vm_compute in Ha.
  apply elem_of_cons in Ha as [?|Ha]; [by left|].
  apply elem_of_cons in Ha as [?|Ha]; [by right|].
  by apply elem_of_nil in Ha.
Defined.

(** ** Window history *)

Lemma rolling_mean_short window (col : list cell) :
  (length col < window)%nat → rolling_mean window col = None.
Proof.
  intros Hl. unfold rolling_mean.
  pose proof (nonnull_length (take window col)) as Hn.
  rewrite length_take in Hn.
  rewrite decide_False; [done|lia].
Qed.

Lemma pct_change_short periods (col : list cell) :
  (length col ≤ periods)%nat → pct_change periods col = None.
Proof.
  intros Hl. unfold pct_change. rewrite drop_ge by done.
  unfold ffill at 2. simpl. unfold fdiv. by rewrite lift2_None_r.
Qed.

Lemma enrich_short_history r (hist : list Agg.row) :
  let e := enrich (r, hist) in
  ((length hist < 4)%nat → Enriched.MovingAvg5 e = 0%float)
  ∧ ((length hist < 9)%nat → Enriched.MovingAvg10 e = 0%float)
  ∧ ((length hist < 5)%nat → Enriched.Trend e = 0%float).
Proof.
  simpl. split_and!; intros Hl.
  - rewrite rolling_mean_short; [done|]. simpl. rewrite length_fmap. lia.
  - rewrite rolling_mean_short; [done|]. simpl. rewrite length_fmap. lia.
  - rewrite pct_change_short; [done|]. simpl. rewrite length_fmap. lia.
Qed.

Lemma group_row_sentinel df k i r :
  group k (enrich_frame df) !! i = Some r →
  ((i < 4)%nat → Enriched.MovingAvg5 r = 0%float)
  ∧ ((i < 9)%nat → Enriched.MovingAvg10 r = 0%float)
  ∧ ((i < 5)%nat → Enriched.Trend r = 0%float).
Proof.
  rewrite group_histories, list_lookup_fmap.
  destruct (histories _ _ !! i) as [[x hist]|] eqn:Hi; [|done].
  intros [= <-]. apply histories_lookup in Hi as [Hx ->].
  apply lookup_lt_Some in Hx.
  pose proof (enrich_short_history x (reverse (take i
    (filter (λ r, Agg.CompanyID r = Some k) df)) ++ [])) as He.
  rewrite length_app, length_reverse, length_take in He. simpl in He.
  destruct He as (H5 & H10 & Ht).
  split_and!; intros ?; [apply H5|apply H10|apply Ht]; lia.
Qed.

Lemma null_row_sentinel df r :
  r ∈ enrich_frame df → Enriched.CompanyID r = None →
  Enriched.MovingAvg5 r = 0%float
  ∧ Enriched.MovingAvg10 r = 0%float
  ∧ Enriched.Trend r = 0%float.
Proof.
  intros Hr Hnull. unfold enrich_frame in Hr.
  apply list_elem_of_fmap in Hr as ([x hist] & -> & Hin).
  apply with_history_null in Hin as ->; [|done].
  destruct (enrich_short_history x []) as (H5 & H10 & Ht). simpl in *.
  split_and!; [apply H5|apply H10|apply Ht]; lia.
Qed.

Lemma short_group_sentinel df k r :
  (length (group k (enrich_frame df)) < 5)%nat →
  r ∈ group k (enrich_frame df) →
  Enriched.MovingAvg5 r = 0%float ∧ Enriched.Trend r = 0%float.
Proof.
  intros Hshort [i Hi]%list_elem_of_lookup.
  pose proof (lookup_lt_Some _ _ _ Hi).
  destruct (group_row_sentinel df k i r Hi) as (H5 & _ & Ht).
  split; [apply H5|apply Ht]; lia.
Qed.

Lemma length_filter_impl {A} (P Q : A → Prop)
    `{∀ x, Decision (P x)} `{∀ x, Decision (Q x)} (l : list A) :
  (∀ x, x ∈ l → P x → Q x) →
  (length (filter P l) ≤ length (filter Q l))%nat.
Proof.
  induction l as [|x l IH]; intros Himpl; [done|].
  assert (length (filter P l) ≤ length (filter Q l))%nat as Hle
    by (apply IH; intros y Hy; apply Himpl; by right).
  rewrite !filter_cons.
  destruct (decide (P x)) as [HP|HP].
  - rewrite decide_True by (apply Himpl; [left|done]). simpl. lia.
  - destruct (decide (Q x)); simpl; lia.
Qed.

(** C6 (as the code has it): the windows run over the rows of one
    CompanyID, in frame order.  A row with fewer than five rows of its
    company up to and including itself has the 5-day moving average 0.0
    (fewer than ten: the 10-day one), a row with fewer than five rows of its
    company before it has the Trend 0.0; so every row of a company with
    fewer than five rows has both at 0.0, and so has every row whose
    CompanyID is null.  The same holds for a Symbol with fewer than five
    rows when no row of another Symbol shares a CompanyID with its rows. *)
Theorem short_history_sentinel df k :
  let part := group k (enrich_frame df) in
  Enriched.base <$> part = filter (λ r, Agg.CompanyID r = Some k) df
  ∧ (∀ i r, part !! i = Some r →
       ((i < 4)%nat → Enriched.MovingAvg5 r = 0%float)
       ∧ ((i < 9)%nat → Enriched.MovingAvg10 r = 0%float)
       ∧ ((i < 5)%nat → Enriched.Trend r = 0%float))
  ∧ ((length part < 5)%nat →
       ∀ r, r ∈ part →
         Enriched.MovingAvg5 r = 0%float ∧ Enriched.Trend r = 0%float)
  ∧ (∀ r, r ∈ enrich_frame df → Enriched.CompanyID r = None →
       Enriched.MovingAvg5 r = 0%float
       ∧ Enriched.MovingAvg10 r = 0%float
       ∧ Enriched.Trend r = 0%float)
  ∧ (∀ s,
       (∀ r, r ∈ part → Agg.Symbol (Enriched.base r) = s) →
       (length (rows_of_symbol s (enrich_frame df)) < 5)%nat →
       ∀ r, r ∈ part →
         Enriched.MovingAvg5 r = 0%float ∧ Enriched.Trend r = 0%float).
Proof.
  intros part. split_and!.
  - unfold part. rewrite group_histories, <-list_fmap_compose.
    rewrite <-(histories_fst [] (filter _ df)) at 2. by apply list_fmap_ext.
  - apply group_row_sentinel.
  - intros Hshort r. by apply short_group_sentinel.
  - apply null_row_sentinel.
  - intros s Hsame Hshort r. apply short_group_sentinel.
    eapply Nat.le_lt_trans; [|exact Hshort].
    unfold part, group, rows_of_symbol. apply length_filter_impl.
    intros x Hx Hk. apply Hsame. unfold part, group.
    by apply list_elem_of_filter.
Qed.

Lemma float_neq (x y : float) :
  PrimFloat.eqb x y = false → PrimFloat.eqb y y = true → x ≠ y.
Proof. intros Hxy Hyy ->. rewrite Hyy in Hxy. discriminate. Qed.

Lemma short_history_sentinel_witness :
  Forall (λ r, Enriched.MovingAvg5 r = 0%float ∧ Enriched.Trend r = 0%float)
    (group 1 (enrich_frame one_row_per_company)).
Proof.
  apply Forall_forall.
  apply (short_history_sentinel one_row_per_company 1).
  rewrite group_length. vm_compute. repeat constructor.
Defined.

(** The Symbol GOOGL has three rows, yet its last row has a computed 5-day
    moving average and a computed Trend: the window ran over the six rows
    of CompanyID 3. *)
Lemma short_symbol_history_not_sentinel :
  ∃ r, r ∈ rows_of_symbol "GOOGL" (enrich_frame two_tickers_frame)
       ∧ length (rows_of_symbol "GOOGL" (enrich_frame two_tickers_frame)) = 3%nat
       ∧ Enriched.MovingAvg5 r = 103%float
       ∧ Enriched.MovingAvg5 r ≠ 0%float
       ∧ Enriched.Trend r ≠ 0%float.
Proof.
  assert (∃ r, rows_of_symbol "GOOGL" (enrich_frame two_tickers_frame) !! 2%nat
               = Some r
               ∧ Enriched.MovingAvg5 r = 103%float
               ∧ PrimFloat.eqb (Enriched.MovingAvg5 r) 0 = false
               ∧ PrimFloat.eqb (Enriched.Trend r) 0 = false)
    as (r & Hr & H5 & Hne5 & Hnet).
  { eexists. split; [vm_compute; reflexivity|].
    repeat split; vm_compute; reflexivity. }
  exists r. split_and!.
  - by eapply list_elem_of_lookup_2.
  - vm_compute. reflexivity.
  - done.
  - by apply float_neq.
  - by apply float_neq.
Qed.

(** ** The two mean daily returns *)

(** C8 (as the code has it): the first facet averages the DailyReturn
    column as the input brings it (nulls filled with 0.0); the third facet
    averages the DailyReturn column that [aggregate_data] recomputes from
    ClosePrice within each CompanyID.  The two figures of a company are
    equal whenever the two columns agree on the rows of that company. *)
Theorem mean_return_facets df a :
  a ∈ aggregate_data df →
  let g := group (CompanyID a) (enrich_frame df) in
  DailyReturn_x a = agg_mean ((λ r, Some (Enriched.DailyReturn_input r)) <$> g)
  ∧ DailyReturn_y a = agg_mean ((λ r, Some (Enriched.DailyReturn r)) <$> g)
  ∧ ((∀ r, r ∈ g → Enriched.DailyReturn_input r = Enriched.DailyReturn r) →
     DailyReturn_x a = DailyReturn_y a).
Proof.
  rewrite aggregate_data_closed_form.
  intros (k & -> & _)%list_elem_of_fmap. simpl. split_and!; [done|done|].
  intros Hsame. unfold daily_return_agg, column. f_equal.
  apply list_fmap_ext. intros i r Hr. f_equal. apply Hsame.
  by eapply list_elem_of_lookup_2.
Qed.

Lemma mean_return_facets_witness :
  Forall (λ a, DailyReturn_x a = DailyReturn_y a) (aggregate_data two_days_frame).
Proof.
  apply Forall_forall.
  intros a Ha. apply (mean_return_facets two_days_frame a Ha).
  assert (CompanyID a = 1 ∨ CompanyID a = 2) as Hk.
  { apply (list_elem_of_fmap_2 CompanyID) in Ha.
    rewrite aggregate_data_ids in Ha. vm_compute in Ha.
    apply elem_of_cons in Ha as [?|Ha]; [by left|].
    apply elem_of_cons in Ha as [?|Ha]; [by right|].
    by apply elem_of_nil in Ha. }
  intros r Hr.
  assert (Forall (λ r, Enriched.DailyReturn_input r = Enriched.DailyReturn r)
            (enrich_frame two_days_frame)) as Hall
    by (vm_compute; repeat constructor).
  rewrite Forall_forall in Hall. apply Hall.
  unfold group in Hr. by apply list_elem_of_filter in Hr as [_ ?].
Defined.

(** On the two tickers of one company, the input column holds the returns
    within each Symbol and the recomputed column the returns within the
    CompanyID: the merged row carries two different means. *)
Lemma mean_return_facets_differ :
  ∃ a, aggregate_data two_tickers_frame = [a]
       ∧ DailyReturn_x a ≠ DailyReturn_y a.
Proof.
  assert (∃ a x y, aggregate_data two_tickers_frame = [a]
                   ∧ DailyReturn_x a = Some x ∧ DailyReturn_y a = Some y
                   ∧ PrimFloat.eqb x y = false ∧ PrimFloat.eqb y y = true)
    as (a & x & y & Ha & Hx & Hy & Hxy & Hyy).
  { eexists _, _, _. split; [vm_compute; reflexivity|].
    repeat split; vm_compute; reflexivity. }
  exists a. split; [done|]. rewrite Hx, Hy. intros [= ?].
  by eapply float_neq.
Qed.

(** * Further properties *)

(** ** The date key *)

(** X1: on calendar days the integer date key orders as the dates do, and
    two days with the same key are the same day. *)
Theorem date_id_orders_as_dates a b :
  calendar_day a → calendar_day b →
  (date_ltb a b ↔ date_id a < date_id b)
  ∧ (date_id a = date_id b → a = b).
Proof.
  unfold calendar_day, date_id, date_ltb.
  destruct a as [ya ma da], b as [yb mb db]; simpl. intros Ha Hb.
  rewrite !orb_True, !andb_True, !orb_True, !andb_True.
  rewrite !Is_true_true, !Z.ltb_lt, !Z.eqb_eq.
  split; [lia|]. intros ?. assert (ya = yb ∧ ma = mb ∧ da = db) as (-> & -> & ->) by lia.
  done.
Qed.

Lemma date_id_orders_as_dates_witness :
  (date_ltb (mkDate 2024 11 30) (mkDate 2024 12 1)
   ↔ date_id (mkDate 2024 11 30) < date_id (mkDate 2024 12 1))
  ∧ (date_id (mkDate 2024 11 30) = date_id (mkDate 2024 12 1) →
     mkDate 2024 11 30 = mkDate 2024 12 1).
Proof.
  apply (date_id_orders_as_dates (mkDate 2024 11 30) (mkDate 2024 12 1));
    unfold calendar_day; simpl; lia.
Defined.

(** ** No null in the normalized numbers *)

Lemma fillna_not_nan d c :
  PrimFloat.is_nan d = false → PrimFloat.is_nan (fillna d c) = false.
Proof.
  intros Hd. destruct c as [x|]; simpl; [|done].
  by destruct (PrimFloat.is_nan x) eqn:E.
Qed.


Lemma transform_data_inv uuid4 input w o :
  o ∈ transform_data uuid4 input w →
  ∃ previous, Out.DailyReturn o
              = daily_return (Staged.ClosePrice (Out.base o)) previous.
Proof.
  unfold transform_data, transform_frame.
  intros (f & -> & (p & -> & _)%list_elem_of_fmap)%list_elem_of_fmap.
  by eexists.
Qed.

(** X2: no price and no daily return of the normalized output is null
    (NaN): a missing price is stored as 0.0, a null daily return as 0.0. *)
Theorem normalized_numbers_not_null uuid4 input w o :
  o ∈ transform_data uuid4 input w →
  PrimFloat.is_nan (Staged.OpenPrice (Out.base o)) = false
  ∧ PrimFloat.is_nan (Staged.High (Out.base o)) = false
  ∧ PrimFloat.is_nan (Staged.Low (Out.base o)) = false
  ∧ PrimFloat.is_nan (Staged.ClosePrice (Out.base o)) = false
  ∧ PrimFloat.is_nan (Out.DailyReturn o) = false.
Proof.
  intros Ho.
  destruct (transform_data_inv _ _ _ _ Ho) as [previous ->].
  apply transform_data_origin in Ho as (l1 & r & l2 & _ & -> & _). simpl.
  split_and!; by apply fillna_not_nan.
Qed.

Lemma normalized_numbers_not_null_witness :
  Forall (λ o, PrimFloat.is_nan (Staged.ClosePrice (Out.base o)) = false
               ∧ PrimFloat.is_nan (Out.DailyReturn o) = false)
    (transform_data (λ _, EmptyString) missing_close_batch None).
Proof.
  apply Forall_forall. intros o Ho.
  destruct (normalized_numbers_not_null _ _ _ _ Ho) as (_ & _ & _ & ? & ?).
  by split.
Defined.

(** ** Record identifiers *)

Lemma run_of_a_inj i j : run_of_a i = run_of_a j → i = j.
Proof.
  revert j. induction i as [|i IH]; intros [|j]; simpl; try done.
  intros [= ?]. f_equal. by apply IH.
Qed.

Lemma staged_record_ids uuid4 (l : list Raw.row) :
  Staged.RecordID <$> imap (stage uuid4) l = uuid4 <$> seq 0 (length l).
Proof.
  rewrite fmap_imap. rewrite <-(imap_seq_0 l uuid4). by apply imap_ext.
Qed.

(** X3: when the identifiers drawn never repeat, no two rows of the output
    share a RecordID (the identifiers drawn for dropped duplicates are
    simply not used). *)
Theorem record_ids_distinct uuid4 input w :
  (∀ i j, uuid4 i = uuid4 j → i = j) →
  NoDup (Staged.RecordID <$> (Out.base <$> transform_data uuid4 input w)).
Proof.
  intros Hinj. rewrite transform_data_base.
  assert (NoDup (Staged.RecordID <$> staged_frame uuid4 input w)) as Hnd.
  { unfold staged_frame. rewrite staged_record_ids.
    apply NoDup_fmap_2_strong; [|apply NoDup_seq].
    intros i j _ _. apply Hinj. }
  eapply sublist_NoDup; [exact Hnd|].
  apply sublist_fmap_mono, drop_duplicates_from_sublist.
Qed.

Lemma record_ids_distinct_witness :
  NoDup (Staged.RecordID <$> (Out.base <$> transform_data run_of_a with_repeats None)).
Proof. apply (record_ids_distinct run_of_a with_repeats None), run_of_a_inj. Defined.

(** ** The logged counts *)

Lemma drop_duplicates_from_length_eq {A K} `{EqDecision K} (key : A → K) seen df :
  length (drop_duplicates_from key seen df) = length df
  ↔ NoDup (key <$> df) ∧ ∀ k, k ∈ key <$> df → k ∉ seen.
Proof.
  revert seen. induction df as [|r t IH]; intros seen; simpl.
  - split; [|done]. intros _. split; [constructor|]. by intros k ?%elem_of_nil.
  - pose proof (sublist_length _ _ (drop_duplicates_from_sublist key seen t)).
    case_decide as E.
    + split; [lia|]. intros [_ Hk]. exfalso. apply (Hk (key r)); [left|done].
    + simpl. rewrite NoDup_cons.
      split.
      * intros Hl. assert (length (drop_duplicates_from key (key r :: seen) t)
                           = length t) as [Hnd Hk]%IH by lia.
        split_and!; [|done|].
        -- intros Hin. by apply (Hk _ Hin); left.
        -- intros k [->|Hin]%elem_of_cons; [done|].
           specialize (Hk _ Hin). by apply not_elem_of_cons in Hk as [_ ?].
      * intros [[Hr Hnd] Hk]. f_equal. apply IH. split; [done|].
        intros k Hin. apply not_elem_of_cons. split.
        -- by intros ->.
        -- apply Hk. by right.
Qed.

(** X4: the two counts that [transform_data] logs account for every row:
    the rows of the input are the rows filtered out, the duplicates removed
    and the rows written.  The filtered count is the number of rows dated
    on or before the watermark, and no duplicate is counted exactly when
    the (Symbol, Date) pairs of the filtered input are distinct. *)
Theorem logged_counts_account_for_rows uuid4 input w :
  length input
  = (filtered_count input w + duplicates_removed uuid4 input w
     + length (transform_data uuid4 input w))%nat
  ∧ (∀ d, w = Some d →
       filtered_count input w
       = length (filter (λ r, ¬ date_ltb d (Raw.Date r)) input))
  ∧ (duplicates_removed uuid4 input w = 0%nat
     ↔ NoDup (raw_key <$> filter_watermark w input)).
Proof.
  unfold filtered_count, duplicates_removed.
  fold (staged_frame uuid4 input w).
  pose proof (sublist_length _ _ (filter_watermark_sublist w input)) as Hf.
  pose proof (sublist_length _ _
    (drop_duplicates_from_sublist Staged.key [] (staged_frame uuid4 input w))) as Hd.
  fold (drop_duplicates Staged.key (staged_frame uuid4 input w)) in Hd.
  assert (length (transform_data uuid4 input w)
          = length (drop_duplicates Staged.key (staged_frame uuid4 input w))) as Ho
    by (by rewrite <-transform_data_base, length_fmap).
  assert (length (staged_frame uuid4 input w)
          = length (filter_watermark w input)) as Hs by apply length_imap.
  split_and!.
  - lia.
  - intros d ->. simpl.
    pose proof (filter_app_complement (λ r, date_ltb d (Raw.Date r)) input) as Hp.
    apply Permutation_length in Hp. rewrite length_app in Hp. lia.
  - rewrite <-(staged_frame_keys uuid4).
    pose proof (drop_duplicates_from_length_eq Staged.key []
                  (staged_frame uuid4 input w)) as Heq.
    fold (drop_duplicates Staged.key (staged_frame uuid4 input w)) in Heq.
    split.
    + intros Hz. apply Heq. lia.
    + intros Hnd. assert (length (drop_duplicates Staged.key (staged_frame uuid4 input w))
                          = length (staged_frame uuid4 input w)); [|lia].
      apply Heq. split; [done|]. intros k _. apply not_elem_of_nil.
Qed.

(** ** Successive watermarks *)

Lemma date_ltb_le_trans w1 w2 d :
  ¬ date_ltb w2 w1 → date_ltb w2 d → date_ltb w1 d.
Proof.
  intros Hle Hlt. destruct (date_ltb_total w1 w2) as [H|[->|H]]; [|done..].
  by eapply date_ltb_trans.
Qed.

(** X5: filtering by a watermark a batch that was already filtered by an
    earlier (or the same) watermark gives what the later watermark alone
    gives; with no watermark nothing is filtered out. *)
Theorem filter_watermark_twice w1 w2 input :
  ¬ date_ltb w2 w1 →
  filter_watermark (Some w2) (filter_watermark (Some w1) input)
  = filter_watermark (Some w2) input
  ∧ filter_watermark (Some w2) input
      `sublist_of` filter_watermark (Some w1) input
  ∧ filter_watermark None input = input.
Proof.
  intros Hle. simpl.
  assert (filter (λ r, date_ltb w2 (Raw.Date r))
            (filter (λ r, date_ltb w1 (Raw.Date r)) input)
          = filter (λ r, date_ltb w2 (Raw.Date r)) input) as Heq.
  { rewrite list_filter_filter. apply list_filter_iff. intros r.
    split; [tauto|]. intros ?. split; [done|]. by eapply date_ltb_le_trans. }
  split_and!; [done| |done].
  rewrite <-Heq. apply sublist_filter.
Qed.

Lemma filter_watermark_twice_witness :
  filter_watermark (Some (mkDate 2024 11 12))
    (filter_watermark (Some (mkDate 2024 11 11)) two_days)
  = filter_watermark (Some (mkDate 2024 11 12)) two_days.
Proof.
  apply (filter_watermark_twice (mkDate 2024 11 11) (mkDate 2024 11 12) two_days).
  vm_compute. tauto.
Defined.

(** ** Volume totals *)

Lemma wrap64_add_l a b : wrap64 (wrap64 a + b) = wrap64 (a + b).
Proof.
  unfold wrap64. f_equal.
  replace ((a + 2 ^ 63) mod 2 ^ 64 - 2 ^ 63 + b + 2 ^ 63)
    with ((a + 2 ^ 63) mod 2 ^ 64 + b) by lia.
  rewrite Z.add_mod_idemp_l by lia. f_equal. lia.
Qed.

Lemma agg_sum_int_wrap (l : list Z) : agg_sum_int l = wrap64 (foldr Z.add 0 l).
Proof.
  unfold agg_sum_int.
  assert (∀ a, foldl (λ acc v, wrap64 (acc + v)) (wrap64 a) l
               = wrap64 (a + foldr Z.add 0 l)) as Hgen.
  { induction l as [|v t IH]; intros a; simpl.
    - by rewrite Z.add_0_r.
    - rewrite IH, <-Z.add_assoc, wrap64_add_l. done. }
  apply (Hgen 0).
Qed.

Lemma wrap64_range z : - 2 ^ 63 ≤ wrap64 z < 2 ^ 63.
Proof.
  unfold wrap64. pose proof (Z.mod_pos_bound (z + 2 ^ 63) (2 ^ 64)). lia.
Qed.

Lemma wrap64_small z : - 2 ^ 63 ≤ z < 2 ^ 63 → wrap64 z = z.
Proof. intros Hz. unfold wrap64. rewrite Z.mod_small; lia. Qed.

Lemma group_base k df :
  Enriched.base <$> group k (enrich_frame df)
  = filter (λ r, Agg.CompanyID r = Some k) df.
Proof.
  rewrite group_histories, <-list_fmap_compose.
  rewrite <-(histories_fst [] (filter _ df)) at 2. by apply list_fmap_ext.
Qed.

(** X6: the two volume totals of a merged row are the same number, the sum
    of the Volume column over the input rows of that company reduced to
    int64; it is exactly that sum whenever the sum fits int64. *)
Theorem total_volume_is_company_sum df a :
  a ∈ aggregate_data df →
  TotalTradingVolume a = Some (TotalVolume a)
  ∧ TotalVolume a = wrap64 (company_volume (CompanyID a) df)
  ∧ - 2 ^ 63 ≤ TotalVolume a < 2 ^ 63
  ∧ (- 2 ^ 63 ≤ company_volume (CompanyID a) df < 2 ^ 63 →
     TotalVolume a = company_volume (CompanyID a) df).
Proof.
  rewrite aggregate_data_closed_form.
  intros (k & -> & _)%list_elem_of_fmap. simpl.
  assert (agg_sum_int (column Enriched.Volume (group k (enrich_frame df)))
          = wrap64 (company_volume k df)) as Hsum.
  { rewrite agg_sum_int_wrap. unfold company_volume, column.
    by rewrite <-group_base, <-list_fmap_compose. }
  unfold total_volume_agg. rewrite Hsum.
  split; [done|]. split; [done|].
  split; [apply wrap64_range|apply wrap64_small].
Qed.

Lemma total_volume_is_company_sum_witness :
  Forall (λ a, TotalVolume a = company_volume (CompanyID a) two_days_frame)
    (aggregate_data two_days_frame).
Proof.
  apply Forall_forall. intros a Ha.
  apply (total_volume_is_company_sum two_days_frame a Ha).
  assert (CompanyID a = 1 ∨ CompanyID a = 2) as [-> | ->].
  { apply (list_elem_of_fmap_2 CompanyID) in Ha.
    rewrite aggregate_data_ids in Ha. vm_compute in Ha.
    apply elem_of_cons in Ha as [?|Ha]; [by left|].
    apply elem_of_cons in Ha as [?|Ha]; [by right|].
    by apply elem_of_nil in Ha. }
  - assert (company_volume 1 two_days_frame = 2000) as -> by (vm_compute; reflexivity).
    lia.
  - assert (company_volume 2 two_days_frame = 2000) as -> by (vm_compute; reflexivity).
    lia.
Defined.

(** ** The moving averages of the merged row *)

Lemma nonnull_not_nan (l : list float) :
  Forall (λ x, PrimFloat.is_nan x = false) l → nonnull (Some <$> l) = l.
Proof.
  unfold nonnull. induction 1 as [|x l Hx _ IH]; [done|].
  cbn [fmap list_fmap omap list_omap isna]. rewrite Hx. simpl. by f_equal.
Qed.

Lemma agg_last_filled {A} (f : A → cell) (g : list A) :
  agg_last ((λ r, Some (fillna 0 (f r))) <$> g) = (λ r, fillna 0 (f r)) <$> last g.
Proof.
  unfold agg_last. rewrite (list_fmap_compose (λ r, fillna 0 (f r)) Some).
  rewrite nonnull_not_nan, fmap_last; [done|].
  apply Forall_fmap, Forall_forall. intros r _. by apply fillna_not_nan.
Qed.

Lemma group_nonempty k df :
  k ∈ group_keys (Agg.CompanyID <$> df) → group k (enrich_frame df) ≠ [].
Proof.
  rewrite elem_of_group_keys. intros (r & Hk & Hr)%list_elem_of_fmap Hnil.
  apply (f_equal (fmap Enriched.base)) in Hnil. rewrite group_base in Hnil.
  simpl in Hnil.
  assert (r ∈ filter (λ r, Agg.CompanyID r = Some k) df) as Hin
    by (by apply list_elem_of_filter).
  rewrite Hnil in Hin. by apply elem_of_nil in Hin.
Qed.

(** X7: the moving averages of a merged row are those of the last row of
    the company in frame order (the zero fill included), never a mean over
    the batch and never null. *)
Theorem moving_average_is_last_row df a :
  a ∈ aggregate_data df →
  ∃ r, last (group (CompanyID a) (enrich_frame df)) = Some r
       ∧ MovingAvg5Day a = Some (Enriched.MovingAvg5 r)
       ∧ MovingAvg10Day a = Some (Enriched.MovingAvg10 r).
Proof.
  rewrite aggregate_data_closed_form.
  intros (k & -> & Hk)%list_elem_of_fmap. simpl.
  apply group_nonempty in Hk. apply last_is_Some in Hk as [r Hr].
  exists r. split; [done|].
  unfold column. rewrite group_histories in *.
  rewrite <-!list_fmap_compose in *.
  split.
  - etransitivity; [apply (agg_last_filled (λ p, rolling_mean 5
      (Agg.ClosePrice p.1 :: (Agg.ClosePrice <$> p.2))))|].
    rewrite fmap_last in Hr. by destruct (last _) as [p|]; simplify_eq/=.
  - etransitivity; [apply (agg_last_filled (λ p, rolling_mean 10
      (Agg.ClosePrice p.1 :: (Agg.ClosePrice <$> p.2))))|].
    rewrite fmap_last in Hr. by destruct (last _) as [p|]; simplify_eq/=.
Qed.

Lemma moving_average_is_last_row_witness :
  MovingAvg5Day <$> aggregate_data six_days_frame = [Some 103%float].
Proof.
  assert (∃ a, aggregate_data six_days_frame = [a]) as [a Ha]
    by (eexists; vm_compute; reflexivity).
  destruct (moving_average_is_last_row six_days_frame a) as (r & Hr & H5 & _).
  { rewrite Ha. left. }
  rewrite Ha. simpl. rewrite H5. f_equal. f_equal.
  assert (CompanyID a = 2) as Hk.
  { apply (f_equal (fmap CompanyID)) in Ha. rewrite aggregate_data_ids in Ha.
    vm_compute in Ha. by injection Ha. }
  rewrite Hk in Hr.
  assert (last (group 2 (enrich_frame six_days_frame)) = Some r
          → Enriched.MovingAvg5 r = 103%float) as Hv.
  { vm_compute. by intros [= <-]. }
  by apply Hv.
Defined.

(** ** An aggregate without rows *)

Lemma insert_key_length k l : (length (insert_key k l) ≤ S (length l))%nat.
Proof.
  induction l as [|h t IH]; simpl; [lia|].
  destruct (k <? h); simpl; [lia|]. destruct (k =? h); simpl; lia.
Qed.

Lemma group_keys_length ids : (length (group_keys ids) ≤ length ids)%nat.
Proof.
  induction ids as [|[k|] ids IH]; simpl; [lia| |lia].
  pose proof (insert_key_length k (group_keys ids)). lia.
Qed.

(** X8: the aggregate has no more rows than its input, and it has no row
    at all exactly when no input row has a CompanyID (in particular on the
    empty input). *)
Theorem aggregate_empty_iff_no_company df :
  (length (aggregate_data df) ≤ length df)%nat
  ∧ (aggregate_data df = [] ↔ ∀ r, r ∈ df → Agg.CompanyID r = None).
Proof.
  split.
  - rewrite <-(length_fmap CompanyID), aggregate_data_ids.
    rewrite <-(length_fmap Agg.CompanyID df). apply group_keys_length.
  - assert (aggregate_data df = [] ↔ group_keys (Agg.CompanyID <$> df) = [])
      as ->.
    { rewrite <-aggregate_data_ids. split; [by intros ->|apply fmap_nil_inv]. }
    split.
    + intros Hnil r Hr. destruct (Agg.CompanyID r) as [k|] eqn:Hk; [|done].
      assert (k ∈ group_keys (Agg.CompanyID <$> df)) as Hin.
      { apply elem_of_group_keys. rewrite <-Hk. by apply list_elem_of_fmap_2. }
      rewrite Hnil in Hin. by apply elem_of_nil in Hin.
    + intros Hnone. apply elem_of_nil_inv. intros k.
      rewrite elem_of_group_keys. intros (r & Hk & Hr)%list_elem_of_fmap.
      by rewrite (Hnone r Hr) in Hk.
Qed.

(** ** The company table *)

(** X9: the company table gives the five companies the identifiers 1 to
    5, one each: a resolved CompanyID lies between 1 and 5, and two names
    with the same CompanyID are the same name. *)
Theorem company_ids_one_to_one name id :
  map_company_id name = Some id →
  1 ≤ id ≤ 5
  ∧ ∀ name', map_company_id name' = Some id → name' = name.
Proof.
  assert (∀ n i, map_company_id n = Some i →
            (n, i) ∈ [ ("Apple Inc.", 1); ("Microsoft Corp.", 2);
                       ("Alphabet Inc.", 3); ("Amazon.com Inc.", 4);
                       ("Netflix Inc.", 5) ]%string) as Hlist.
  { intros n i Hn. unfold map_company_id, COMPANY_ID_MAP in Hn.
    by apply elem_of_list_to_map_2 in Hn. }
  intros Hname. pose proof (Hlist _ _ Hname) as Hin.
  split.
  - repeat (apply elem_of_cons in Hin as [[= -> ->]|Hin]; [lia|]).
    by apply elem_of_nil in Hin.
  - intros name' Hin'%Hlist.
    repeat (apply elem_of_cons in Hin as [[= -> ->]|Hin];
      [repeat (apply elem_of_cons in Hin' as [Heq|Hin']; [by simplify_eq|]);
       by apply elem_of_nil in Hin'|]).
    by apply elem_of_nil in Hin.
Qed.

Lemma company_ids_one_to_one_witness :
  1 ≤ 3 ≤ 5 ∧ ∀ name', map_company_id name' = Some 3 → name' = "Alphabet Inc."%string.
Proof.
  apply (company_ids_one_to_one "Alphabet Inc." 3). vm_compute. reflexivity.
Defined.

(** ** The windows of a company *)





(** ** The normalizer followed by the aggregator *)








(** ** Finding the latest file *)

Lemma max_by_foldl {A} (key : A → Z) (best : A) (t : list A) :
  ∃ l1 l2,
    best :: t
    = l1 ++ foldl (λ b y, if key b <? key y then y else b) best t :: l2
    ∧ (∀ y, y ∈ l1 →
         key y < key (foldl (λ b y, if key b <? key y then y else b) best t))
    ∧ (∀ y, y ∈ l2 →
         key y ≤ key (foldl (λ b y, if key b <? key y then y else b) best t)).
Proof.
  revert best. induction t as [|y t IH]; intros best; simpl.
  - exists [], []. split_and!; [done|by intros ? ?%elem_of_nil..].
  - destruct (key best <? key y) eqn:E.
    + apply Z.ltb_lt in E.
      destruct (IH y) as (l1 & l2 & Heq & H1 & H2).
      exists (best :: l1), l2. rewrite Heq. split_and!; [done| |done].
      intros z [->|Hz]%elem_of_cons; [|by apply H1].
      destruct l1 as [|h l1]; simpl in Heq.
      * injection Heq as Hy _. rewrite <-Hy. lia.
      * injection Heq as <- _. specialize (H1 y ltac:(left)). lia.
    + apply Z.ltb_ge in E.
      destruct (IH best) as (l1 & l2 & Heq & H1 & H2).
      destruct l1 as [|h l1]; simpl in Heq.
      * injection Heq as Hb Ht. exists [], (y :: l2).
        rewrite <-Hb, Ht. split_and!; [done|by intros ? ?%elem_of_nil|].
        intros z [->|Hz]%elem_of_cons; [lia|]. rewrite Hb. by apply H2.
      * injection Heq as <- Ht. exists (best :: y :: l1), l2.
        split_and!; [simpl; by do 2 f_equal| |done].
        intros z [->|[->|Hz]%elem_of_cons]%elem_of_cons.
        -- apply H1. left.
        -- specialize (H1 best ltac:(left)). lia.
        -- apply H1. by right.
Qed.

Lemma max_by_Some {A} (key : A → Z) (l : list A) x :
  max_by key l = Some x →
  ∃ l1 l2, l = l1 ++ x :: l2
    ∧ (∀ y, y ∈ l1 → key y < key x) ∧ (∀ y, y ∈ l2 → key y ≤ key x).
Proof.
  destruct l as [|h t]; [done|]. simpl. intros [= <-]. apply max_by_foldl.
Qed.

Lemma max_by_None {A} (key : A → Z) (l : list A) : max_by key l = None ↔ l = [].
Proof. by destruct l. Qed.


Lemma filter_eq_app_cons {A} (P : A → Prop) `{∀ x, Decision (P x)}
    (l m1 m2 : list A) x :
  filter P l = m1 ++ x :: m2 →
  ∃ l1 l2, l = l1 ++ x :: l2 ∧ filter P l1 = m1 ∧ filter P l2 = m2 ∧ P x.
Proof.
  revert m1. induction l as [|h t IH]; intros m1; [by destruct m1|].
  rewrite filter_cons. destruct (decide (P h)) as [Hh|Hh].
  - destruct m1 as [|h' m1]; simpl.
    + intros [= <- <-]. by exists [], t.
    + intros [= <- (l1 & l2 & -> & <- & <- & ?)%IH].
      exists (h :: l1), l2. by rewrite filter_cons_True.
  - intros (l1 & l2 & -> & <- & <- & ?)%IH.
    exists (h :: l1), l2. by rewrite filter_cons_False.
Qed.

(** The latest of the entries that satisfy [P]: none when no entry
    does, else the first of those with the greatest time. *)
Lemma latest_entry (P : file → Prop) `{∀ f, Decision (P f)} (time : file → Z)
    (entries : list file) :
  match max_by time (filter P entries) with
  | None => ∀ f, f ∈ entries → ¬ P f
  | Some latest =>
      ∃ l1 l2, entries = l1 ++ latest :: l2 ∧ P latest
        ∧ (∀ f, f ∈ l1 → P f → time f < time latest)
        ∧ (∀ f, f ∈ l2 → P f → time f ≤ time latest)
  end.
Proof.
  destruct (max_by time (filter P entries)) as [latest|] eqn:Hmax.
  - apply max_by_Some in Hmax as (m1 & m2 & Heq & H1 & H2).
    apply filter_eq_app_cons in Heq as (l1 & l2 & -> & <- & <- & HP).
    exists l1, l2. split_and!; [done|done| |].
    + intros f Hf HPf. apply H1. by apply list_elem_of_filter.
    + intros f Hf HPf. apply H2. by apply list_elem_of_filter.
  - apply max_by_None in Hmax. intros f Hf HPf.
    assert (f ∈ filter P entries) as Hin by (by apply list_elem_of_filter).
    rewrite Hmax in Hin. by apply elem_of_nil in Hin.
Qed.


(** X13: [get_latest_file] of the aggregation raises [FileNotFoundError]
    when the directory does not exist or has no entry whose name starts
    with the prefix and ends with the extension; otherwise it returns the
    directory joined with the name of such an entry whose modification
    time no such entry exceeds, the first such in the listing. *)
Theorem aggregated2_get_latest_file_outcome fs directory prefix extension :
  match aggregated2.get_latest_file fs directory prefix extension with
  | Raises e =>
      e = FileNotFoundError
      ∧ ∀ entries f, fs !! directory = Some entries → f ∈ entries →
          startswith (file_name f) prefix && endswith (file_name f) extension
          = false
  | Returns path =>
      ∃ l1 latest l2,
        fs !! directory = Some (l1 ++ latest :: l2)
        ∧ path = path_join directory (file_name latest)
        ∧ startswith (file_name latest) prefix = true
        ∧ endswith (file_name latest) extension = true
        ∧ (∀ f, f ∈ l1 → startswith (file_name f) prefix = true →
                endswith (file_name f) extension = true →
                file_mtime f < file_mtime latest)
        ∧ (∀ f, f ∈ l2 → startswith (file_name f) prefix = true →
                endswith (file_name f) extension = true →
                file_mtime f ≤ file_mtime latest)
  end.
Proof.
  unfold aggregated2.get_latest_file.
  destruct (fs !! directory) as [entries|]; [|by split].
  pose proof (latest_entry
    (λ f, startswith (file_name f) prefix && endswith (file_name f) extension)
    file_mtime entries) as Hl.
  destruct (max_by _ _) as [latest|].
  - destruct Hl as (l1 & l2 & -> & [HP1 HP2]%andb_True & H1 & H2).
    exists l1, latest, l2.
    split_and!; [done|done|by apply Is_true_true|by apply Is_true_true| |].
    + intros f Hf Hs He. apply H1; [done|]. by rewrite Hs, He.
    + intros f Hf Hs He. apply H2; [done|]. by rewrite Hs, He.
  - split; [done|]. intros ? f [= <-] Hf. specialize (Hl f Hf).
    by destruct (startswith _ _ && endswith _ _).
Qed.


(** ** A written file is the next one read *)















(** ** The extraction *)

Lemma parse_item_Some py_float py_int symbol company_name item r :
  parse_item py_float py_int symbol company_name item = Some r →
  Extracted.Symbol r = symbol
  ∧ Extracted.CompanyName r = company_name
  ∧ Extracted.Date r = item.1
  ∧ get_int py_int item.2 "6. volume" = Some (Extracted.Volume r).
Proof.
  unfold parse_item. intros Hr.
  destruct (get_float py_float item.2 "1. open"); simpl in Hr; [|done].
  destruct (get_float py_float item.2 "2. high"); simpl in Hr; [|done].
  destruct (get_float py_float item.2 "3. low"); simpl in Hr; [|done].
  destruct (get_float py_float item.2 "4. close"); simpl in Hr; [|done].
  destruct (get_int py_int item.2 "6. volume"); simpl in Hr; [|done].
  by injection Hr as <-.
Qed.

Lemma parse_items_dates py_float py_int symbol company_name
    (items : list (date * gmap string string)) (records : list Extracted.row) :
  Forall2 (λ item r, parse_item py_float py_int symbol company_name item = Some r)
    items records →
  Extracted.Date <$> records = items.*1.
Proof.
  induction 1 as [|item r items rs Hr _ IH]; [done|].
  rewrite !fmap_cons, IH. f_equal.
  by apply parse_item_Some in Hr as (_ & _ & ? & _).
Qed.

Lemma parse_stock_data_cases py_float py_int symbol stock_data :
  (parse_stock_data py_float py_int symbol stock_data = []
   ∧ (stock_data = [] ∨ symbol_company symbol = None
      ∨ ∃ company_name item,
          symbol_company symbol = Some company_name ∧ item ∈ stock_data
          ∧ parse_item py_float py_int symbol company_name item = None))
  ∨ (stock_data ≠ []
     ∧ ∃ company_name,
         symbol_company symbol = Some company_name
         ∧ Forall2 (λ item r,
              parse_item py_float py_int symbol company_name item = Some r)
             stock_data (parse_stock_data py_float py_int symbol stock_data)).
Proof.
  unfold parse_stock_data.
  destruct (symbol_company symbol) as [company_name|]; [|left; auto].
  destruct (mapM _ stock_data) as [records|] eqn:Hm; simpl.
  - destruct stock_data as [|item items].
    + left. simpl in Hm. injection Hm as <-. split; [done|by left].
    + right. split; [done|]. exists company_name. split; [done|].
      by apply mapM_Some.
  - left. split; [done|]. right. right.
    apply mapM_None, Exists_exists in Hm as (item & ? & ?).
    by exists company_name, item.
Qed.

(** X16: [parse_stock_data] is all or nothing.  It returns the empty
    frame when the answer is empty, when the symbol is not in [SYMBOLS], or
    when a number of some item cannot be read; otherwise it returns one row
    for each item, in order, with the symbol, its company name of
    [SYMBOLS] and the day of the item.  The volume is read from the metric
    named "6. volume" alone: an item without it has the volume 0. *)
Theorem parse_stock_data_all_or_nothing py_float py_int symbol stock_data :
  let records := parse_stock_data py_float py_int symbol stock_data in
  (records = []
   ↔ stock_data = [] ∨ symbol_company symbol = None
     ∨ ∃ company_name item,
         symbol_company symbol = Some company_name ∧ item ∈ stock_data
         ∧ parse_item py_float py_int symbol company_name item = None)
  ∧ (records ≠ [] →
       length records = length stock_data
       ∧ Extracted.Date <$> records = stock_data.*1)
  ∧ (∀ r, r ∈ records →
       Extracted.Symbol r = symbol
       ∧ symbol_company symbol = Some (Extracted.CompanyName r)
       ∧ ∃ item, item ∈ stock_data ∧ Extracted.Date r = item.1
                 ∧ (item.2 !! "6. volume"%string = None → Extracted.Volume r = 0)).
Proof.
  intros records. unfold records.
  destruct (parse_stock_data_cases py_float py_int symbol stock_data)
    as [[Hnil Hwhy]|[Hne (company_name & Hname & Hall)]].
  - rewrite Hnil. split_and!; [done|done|by intros r ?%elem_of_nil].
  - split_and!.
    + split.
      * intros Hnil. rewrite Hnil in Hall. apply Forall2_nil_inv_r in Hall. tauto.
      * intros [?|[Hnone|(name & item & Hn & Hitem & Hp)]]; [done|congruence|].
        exfalso. assert (name = company_name) as -> by congruence.
        apply list_elem_of_lookup in Hitem as [i Hi].
        destruct (Forall2_lookup_l _ _ _ _ _ Hall Hi) as (r & _ & Hr).
        congruence.
    + intros _. split; [symmetry; by eapply Forall2_length|].
      by eapply parse_items_dates.
    + intros r [i Hi]%list_elem_of_lookup.
      destruct (Forall2_lookup_r _ _ _ _ _ Hall Hi) as (item & Hitem & Hr).
      apply parse_item_Some in Hr as (Hs & Hc & Hd & Hv).
      split_and!; [done|by rewrite Hc|].
      exists item. split_and!; [by eapply list_elem_of_lookup_2|done|].
      intros Hmiss. unfold get_int in Hv. rewrite Hmiss in Hv. by injection Hv.
Qed.

Lemma parse_stock_data_rows py_float py_int symbol stock_data r :
  r ∈ parse_stock_data py_float py_int symbol stock_data →
  Extracted.Symbol r = symbol
  ∧ symbol_company symbol = Some (Extracted.CompanyName r).
Proof.
  destruct (parse_stock_data_cases py_float py_int symbol stock_data)
    as [[-> _]|[_ (company_name & Hname & Hall)]]; [by intros ?%elem_of_nil|].
  intros [i Hi]%list_elem_of_lookup.
  destruct (Forall2_lookup_r _ _ _ _ _ Hall Hi) as (item & _ & Hr).
  apply parse_item_Some in Hr as (Hs & Hc & _). by rewrite Hc.
Qed.

Lemma extract_symbols_Returns py_float py_int fetch last symbols all_data :
  extract_symbols py_float py_int fetch last symbols = Returns all_data →
  (∀ l r, l ∈ all_data → r ∈ l →
     date_ltb last (Extracted.Date r)
     ∧ symbol_company (Extracted.Symbol r) = Some (Extracted.CompanyName r))
  ∧ (∀ symbol items, symbol ∈ symbols → fetch symbol = Some items →
       filter (λ r, date_ltb last (Extracted.Date r))
         (parse_stock_data py_float py_int symbol items) = []
       ∨ filter (λ r, date_ltb last (Extracted.Date r))
           (parse_stock_data py_float py_int symbol items) ∈ all_data).
Proof.
  revert all_data. induction symbols as [|symbol rest IH]; intros all_data; simpl.
  - intros [= <-]. split; [by intros ? ? ?%elem_of_nil|by intros ? ? ?%elem_of_nil].
  - destruct (fetch symbol) as [[|item items]|] eqn:Hfetch.
    + intros [H1 H2]%IH. split; [done|].
      intros s its [->|Hs]%elem_of_cons Hf; [|by apply H2].
      left. rewrite Hfetch in Hf. injection Hf as <-.
      by destruct (parse_stock_data_cases py_float py_int symbol [])
        as [[-> _]|[? _]].
    + destruct (parse_stock_data py_float py_int symbol (item :: items))
        as [|record records] eqn:Hparse; [done|].
      destruct (extract_symbols py_float py_int fetch last rest)
        as [rest_data|e]; [|done].
      intros [= <-]. destruct (IH rest_data eq_refl) as [H1 H2]. split.
      * intros l r [->|Hl]%elem_of_cons Hr; [|by eapply H1].
        apply list_elem_of_filter in Hr as [Hnew Hr]. split; [done|].
        rewrite <-Hparse in Hr.
        by apply parse_stock_data_rows in Hr as [-> ?].
      * intros s its [->|Hs]%elem_of_cons Hf.
        -- right. rewrite Hfetch in Hf. injection Hf as <-. rewrite Hparse. left.
        -- destruct (H2 s its Hs Hf); [by left|right; by right].
    + intros [H1 H2]%IH. split; [done|].
      intros s its [->|Hs]%elem_of_cons Hf; [congruence|by apply H2].
Qed.


Lemma symbol_company_in_SYMBOLS symbol company_name :
  symbol_company symbol = Some company_name ↔ (symbol, company_name) ∈ SYMBOLS.
Proof.
  unfold symbol_company. split.
  - apply elem_of_list_to_map_2.
  - apply elem_of_list_to_map_1.
    apply (bool_decide_unpack _). vm_compute. exact I.
Qed.

(** What the written batch is made of. *)
Lemma extract_data_batch py_float py_int fetch w batch :
  extract_data py_float py_int fetch w = Returns (Some batch) →
  batch ≠ []
  ∧ NoDup (Extracted.key <$> batch)
  ∧ ∀ r, r ∈ batch →
      date_ltb (default (mkDate 2000 1 1) w) (Extracted.Date r)
      ∧ (Extracted.Symbol r, Extracted.CompanyName r) ∈ SYMBOLS.
Proof.
  unfold extract_data.
  destruct (extract_symbols _ _ _ _ _) as [all_data|e] eqn:Hloop; [|done].
  apply extract_symbols_Returns in Hloop as [Hrows _].
  destruct (mjoin all_data) as [|r0 combined] eqn:Hjoin; [done|].
  intros [= <-]. split_and!.
  - unfold drop_duplicates. by simpl.
  - apply drop_duplicates_from_NoDup.
  - intros r Hr.
    apply (sublist_subseteq _ _ (drop_duplicates_from_sublist _ _ _)) in Hr.
    rewrite <-Hjoin in Hr. apply list_elem_of_join in Hr as (l & Hr & Hl).
    destruct (Hrows l r Hl Hr) as [? ?]. split; [done|].
    by apply symbol_company_in_SYMBOLS.
Qed.



(** ** From the extraction to the normalizer *)

(** The identifier of each symbol of [SYMBOLS], through its company name. *)
Lemma symbols_resolve symbol company_name :
  (symbol, company_name) ∈ SYMBOLS →
  ∃ id, map_company_id company_name = Some id
        ∧ (symbol, id) ∈ [ ("AAPL", 1); ("MSFT", 2); ("GOOG", 3);
                           ("AMZN", 4); ("NFLX", 5) ]%string.
Proof.
  unfold SYMBOLS. intros Hin.
  repeat (apply elem_of_cons in Hin as [[= -> ->]|Hin];
    [eexists; split; [vm_compute; reflexivity|];
     rewrite !elem_of_cons; tauto|]).
  by apply elem_of_nil in Hin.
Qed.

Lemma symbol_ids_one_to_one s1 s2 (i1 i2 : Z) :
  (s1, i1) ∈ [ ("AAPL", 1); ("MSFT", 2); ("GOOG", 3);
               ("AMZN", 4); ("NFLX", 5) ]%string →
  (s2, i2) ∈ [ ("AAPL", 1); ("MSFT", 2); ("GOOG", 3);
               ("AMZN", 4); ("NFLX", 5) ]%string →
  s1 = s2 ↔ i1 = i2.
Proof.
  intros H1 H2.
  repeat (apply elem_of_cons in H1 as [[= -> ->]|H1];
    [repeat (apply elem_of_cons in H2 as [[= -> ->]|H2]; [by split|]);
     by apply elem_of_nil in H2|]).
  by apply elem_of_nil in H1.
Qed.

Lemma symbols_batch_one_symbol_per_company (input : list Raw.row) :
  (∀ r, r ∈ input → (Raw.Symbol r, Raw.CompanyName r) ∈ SYMBOLS) →
  one_symbol_per_company input
  ∧ ∀ r, r ∈ input → is_Some (map_company_id (Raw.CompanyName r)).
Proof.
  intros Hsym. split.
  - intros r q Hr Hq _.
    destruct (symbols_resolve _ _ (Hsym r Hr)) as (ir & -> & Hir).
    destruct (symbols_resolve _ _ (Hsym q Hq)) as (iq & -> & Hiq).
    rewrite (symbol_ids_one_to_one _ _ _ _ Hiq Hir).
    split; [by intros ->|by intros [= ->]].
  - intros r Hr. destruct (symbols_resolve _ _ (Hsym r Hr)) as (i & -> & _).
    by eexists.
Qed.

(** X18: the two tables agree.  On a batch whose rows carry a symbol with
    its company name of [SYMBOLS], a Symbol and a company stand for each
    other and every row of the normalized output has a CompanyID. *)
Theorem symbols_resolve_to_company_ids (input : list Raw.row) :
  (∀ r, r ∈ input → (Raw.Symbol r, Raw.CompanyName r) ∈ SYMBOLS) →
  one_symbol_per_company input
  ∧ ∀ uuid4 w o, o ∈ transform_data uuid4 input w →
      is_Some (Staged.CompanyID (Out.base o)).
Proof.
  intros Hsym.
  destruct (symbols_batch_one_symbol_per_company input Hsym) as [Hone Hres].
  split; [done|].
  intros uuid4 w o (l1 & r & l2 & Hf & -> & _)%transform_data_origin. simpl.
  apply Hres.
  eapply sublist_subseteq; [apply filter_watermark_sublist|].
  rewrite Hf. apply elem_of_app. right. left.
Qed.

Lemma symbols_resolve_to_company_ids_witness :
  one_symbol_per_company two_days
  ∧ ∀ uuid4 w o, o ∈ transform_data uuid4 two_days w →
      is_Some (Staged.CompanyID (Out.base o)).
Proof.
  apply (symbols_resolve_to_company_ids two_days).
  intros r Hr. unfold two_days in Hr.
  repeat (apply elem_of_cons in Hr as [->|Hr];
    [unfold SYMBOLS; simpl; rewrite !elem_of_cons; tauto|]).
  by apply elem_of_nil in Hr.
Defined.

Lemma filter_all {A} (P : A → Prop) `{∀ x, Decision (P x)} (l : list A) :
  (∀ x, x ∈ l → P x) → filter P l = l.
Proof.
  induction l as [|x l IH]; intros Hall; [done|].
  rewrite filter_cons_True by (apply Hall; left).
  f_equal. apply IH. intros y Hy. apply Hall. by right.
Qed.

(** X19: a batch that [extract_data] wrote passes the first steps of the
    normalizer untouched when both read the same last processed date: no
    row is filtered out, no duplicate is removed, the output has one row
    for each extracted row, and each has a CompanyID. *)
Theorem extracted_batch_passes_unchanged py_float py_int fetch uuid4 w batch :
  extract_data py_float py_int fetch w = Returns (Some batch) →
  let input := read_extracted <$> batch in
  filter_watermark w input = input
  ∧ filtered_count input w = 0%nat
  ∧ duplicates_removed uuid4 input w = 0%nat
  ∧ length (transform_data uuid4 input w) = length batch
  ∧ one_symbol_per_company input
  ∧ ∀ o, o ∈ transform_data uuid4 input w →
      is_Some (Staged.CompanyID (Out.base o)).
Proof.
  intros (_ & Hnd & Hrows)%extract_data_batch input.
  assert (Hf : filter_watermark w input = input).
  { destruct w as [d|]; [|done]. simpl. apply filter_all.
    intros r (x & -> & Hx)%list_elem_of_fmap. simpl.
    by destruct (Hrows x Hx) as [? _]. }
  assert (Hkeys : raw_key <$> input = Extracted.key <$> batch).
  { unfold input. rewrite <-list_fmap_compose. by apply list_fmap_ext. }
  assert (Hdd : drop_duplicates Staged.key (imap (stage uuid4) input)
                = imap (stage uuid4) input).
  { unfold drop_duplicates.
    assert (length (drop_duplicates_from Staged.key [] (imap (stage uuid4) input))
            = length (imap (stage uuid4) input)) as Hlen.
    { apply drop_duplicates_from_length_eq. split.
      - by rewrite imap_stage_keys, Hkeys.
      - intros k _. apply not_elem_of_nil. }
    pose proof (drop_duplicates_from_sublist Staged.key []
                  (imap (stage uuid4) input)) as Hsub.
    revert Hsub Hlen. generalize (imap (stage uuid4) input).
    generalize (drop_duplicates_from Staged.key [] (imap (stage uuid4) input)).
    intros k1 k2 Hsub. induction Hsub as [|x l1 l2 _ IH|x l1 l2 Hs _]; simpl.
    - done.
    - intros [= ?]. f_equal. by apply IH.
    - intros Hl. apply sublist_length in Hs. lia. }
  assert (Hsym : ∀ r, r ∈ input → (Raw.Symbol r, Raw.CompanyName r) ∈ SYMBOLS).
  { intros r (x & -> & Hx)%list_elem_of_fmap. simpl.
    by destruct (Hrows x Hx) as [_ ?]. }
  destruct (symbols_batch_one_symbol_per_company input Hsym) as [Hone Hres].
  split_and!.
  - done.
  - unfold filtered_count. rewrite Hf. lia.
  - unfold duplicates_removed. rewrite Hf, Hdd. lia.
  - rewrite <-(length_fmap Out.base), transform_data_base.
    unfold staged_frame. rewrite Hf, Hdd, length_imap.
    unfold input. by rewrite length_fmap.
  - done.
  - intros o (l1 & r & l2 & Hfo & -> & _)%transform_data_origin. simpl.
    apply Hres. rewrite Hf in Hfo. rewrite Hfo. apply elem_of_app. right. left.
Qed.

Lemma extracted_batch_passes_unchanged_witness :
  match extract_data sample_float sample_int sample_fetch
          (Some (mkDate 2024 11 12)) with
  | Returns (Some batch) =>
      length (transform_data run_of_a (read_extracted <$> batch)
                (Some (mkDate 2024 11 12))) = length batch
  | _ => False
  end.
Proof.
  pose proof (extracted_batch_passes_unchanged sample_float sample_int
                sample_fetch run_of_a (Some (mkDate 2024 11 12))) as H.
  destruct (extract_data _ _ _ _) as [[batch|]|e] eqn:E;
    [|vm_compute in E; discriminate..].
  by destruct (H batch eq_refl) as (_ & _ & _ & ? & _).
Defined.
